(** * Composite checkout: step orchestration, URL synchronisation, coupon form

    A shallow embedding of the step controller of the composite checkout
    ([Checkout], [CheckoutStepContainer], the checkout store and the URL
    helpers) and of the coupon form of composite-checkout-wpcom, followed
    by the properties established about them.

    Conventions of the embedding:
    - a value that the code uses as a step number is an integer, [NaN]
      or [null] ([JS.numeric]); integers are unbounded here, which agrees
      with JavaScript up to [JS.MAX_SAFE_INTEGER] in absolute value: beyond
      it JavaScript rounds what it parses and does not print every digit
      (from [10^21] on it prints in exponent form), so every statement
      that rests on the digits of a number is made for numbers in that
      range only;
    - strings are [string]s of 8-bit characters (URLs are ASCII);
    - objects used as maps ([stepCompleteStatus]) are [gmap]s;
    - a function that can throw returns a [JS.result];
    - code that mutates React state, the store, [window] or that calls an
      external callback is a state transformer on an explicit record, and
      external calls are appended to a trace in call order. *)

From stdpp Require Import gmap strings list pretty.
From Stdlib Require Import ZArith Ascii Lia.

(** ** JavaScript values used by the code *)

Module JS.

(** Errors thrown by the code or by the language under it. *)
Inductive error :=
  | Error (message : string)
  | TypeError (message : string)
  | ReferenceError (identifier : string).

Inductive result (A : Type) :=
  | Ok (a : A)
  | Throw (e : error).
Arguments Ok {A} a.
Arguments Throw {A} e.

Definition bind {A B} (r : result A) (k : A -> result B) : result B :=
  match r with
  | Ok a => k a
  | Throw e => Throw e
  end.

(** The values that reach the places where the code expects a step number:
    an integer, [NaN] (from [parseInt]) or [null] (the [stepNumber] of a
    step without number). *)
Inductive numeric :=
  | Int (z : Z)
  | NaN
  | Null.

(** [a < b] and [a > b]: [null] counts as [0], and the comparison is false
    as soon as one side is [NaN]. *)
Definition lt (a b : numeric) : bool :=
  match a, b with
  | NaN, _ | _, NaN => false
  | Int x, Int y => (x <? y)%Z
  | Int x, Null => (x <? 0)%Z
  | Null, Int y => (0 <? y)%Z
  | Null, Null => false
  end.

Definition gt (a b : numeric) : bool := lt b a.

(** [a === b]: [NaN] is different from everything, itself included. *)
Definition strict_eq (a b : numeric) : bool :=
  match a, b with
  | Int x, Int y => (x =? y)%Z
  | Null, Null => true
  | _, _ => false
  end.

(** Truthiness: [0], [NaN] and [null] are falsy. *)
Definition truthy (a : numeric) : bool :=
  match a with
  | Int z => negb (z =? 0)%Z
  | NaN | Null => false
  end.

(** [Number.MAX_SAFE_INTEGER]: up to it, in absolute value, every integer
    is a JavaScript number, is printed with all its digits and is parsed
    exactly. *)
Definition MAX_SAFE_INTEGER : Z := 9007199254740991.

(** [String( a )], as a template literal computes it: the decimal digits
    of an integer.  This is what JavaScript prints up to
    [MAX_SAFE_INTEGER]; above it JavaScript prints the shortest digits
    that read back as the same number, and from [10^21] on in exponent
    form, which this definition does not follow. *)
Definition toString (a : numeric) : string :=
  match a with
  | Int z => pretty z
  | NaN => "NaN"
  | Null => "null"
  end.

(** *** Strings *)

Fixpoint drop (n : nat) (s : string) : string :=
  match n, s with
  | S n', String _ s' => drop n' s'
  | _, _ => s
  end.

(** Truthiness of a string. *)
Definition nonempty (s : string) : bool :=
  match s with
  | "" => false
  | String _ _ => true
  end.

(** [s.startsWith( p )] *)
Definition startsWith (s p : string) : bool := String.prefix p s.

(** The first occurrence of [sep] in [s]: what is before it and what is
    after it. *)
Fixpoint cut (sep s : string) : option (string * string) :=
  if String.prefix sep s then Some ("", drop (String.length sep) s)
  else match s with
       | "" => None
       | String c s' =>
           match cut sep s' with
           | Some (before, after) => Some (String c before, after)
           | None => None
           end
       end.

(** [s.replace( pattern, replacement )] for a string pattern: only the
    first occurrence is replaced.  The replacements of this code hold no
    [$], so the replacement text is inserted as it is. *)
Definition replace (s pattern replacement : string) : string :=
  match cut pattern s with
  | Some (before, after) => before +:+ replacement +:+ after
  | None => s
  end.

(** [s.split( sep )] for a separator that is not empty.  Every cut removes
    at least one character, so [String.length s] rounds are never used up
    ([split_unfold] below). *)
Fixpoint split_rounds (rounds : nat) (s sep : string) : list string :=
  match rounds with
  | O => [s]
  | S rounds' =>
      match cut sep s with
      | Some (before, after) => before :: split_rounds rounds' after sep
      | None => [s]
      end
  end.

Definition split (s sep : string) : list string :=
  split_rounds (String.length s) s sep.

Fixpoint skip_space (s : string) : string :=
  match s with
  | String c s' => if Ascii.is_space c then skip_space s' else s
  | "" => ""
  end.

(** The value of the longest prefix of decimal digits of [s], continuing
    from [acc]. *)
Fixpoint parse_digits (acc : Z) (s : string) : Z :=
  match s with
  | String c s' =>
      match Ascii.is_nat c with
      | Some d => parse_digits (10 * acc + Z.of_nat d) s'
      | None => acc
      end
  | "" => acc
  end.

Definition starts_with_digit (s : string) : bool :=
  match s with
  | String c _ => bool_decide (is_Some (Ascii.is_nat c))
  | "" => false
  end.

(** [parseInt( s, 10 )]: leading white space (that of ASCII, the only
    one that 8-bit strings hold) is skipped, one sign is accepted, then
    the longest prefix of digits is read; without a digit the result is
    [NaN].  The digits are read exactly, which is what JavaScript does up
    to [MAX_SAFE_INTEGER]; beyond it JavaScript rounds to the nearest
    number it can represent, which this definition does not follow. *)
Definition parseInt (s : string) : numeric :=
  let s1 := skip_space s in
  let '(sign, s2) :=
    match s1 with
    | String "-"%char r => ((-1)%Z, r)
    | String "+"%char r => (1%Z, r)
    | _ => (1%Z, s1)
    end in
  if starts_with_digit s2 then Int (sign * parse_digits 0 s2) else NaN.

End JS.

Notation "x <- r ;; k" := (JS.bind r (fun x => k))
  (at level 100, r at next level, right associativity).

(** ** The browser window

    The part of [window] that the URL helpers touch: the address, the
    session history and whether [window.history.pushState] exists.  A
    window always has a [location]; the fragment is read off the address
    the way [location.hash] does it. *)

Module Browser.

Record Window := {
  href : string;              (* [window.location.href] *)
  pushStateAvailable : bool;  (* [window.history?.pushState] is there *)
  back : list string;         (* history entries before the current one, latest first *)
  forward : list string;      (* history entries after the current one *)
  loads : nat                 (* documents loaded: a navigation or a reload adds one *)
}.

(** [window.location.hash]: the first [#] and what follows it, or the
    empty string when there is no fragment or an empty one. *)
Definition hash (w : Window) : string :=
  match JS.cut "#" (href w) with
  | Some (_, fragment) => if decide (fragment = "") then "" else "#" +:+ fragment
  | None => ""
  end.

(** [window.history.pushState( null, null, url )] for a [url] that only
    differs from the address in its fragment: the entry is added after the
    current one, the entries after it are dropped, no document is loaded. *)
Definition pushState (url : string) (w : Window) : Window :=
  {| href := url;
     pushStateAvailable := pushStateAvailable w;
     back := href w :: back w;
     forward := [];
     loads := loads w |}.

(** [window.history.length] *)
Definition historyLength (w : Window) : nat :=
  length (back w) + 1 + length (forward w).

End Browser.

(** ** Reading and writing the step number in the URL *)

Module Url.

Definition getStepNumberFromUrl (w : Browser.Window) : JS.numeric :=
  let hashValue := Browser.hash w in
  if JS.startsWith hashValue "#step" then
    let parts := JS.split hashValue "#step" in
    let stepNumber :=
      if 1 <? length parts then default "" (parts !! 1)
      else JS.toString (JS.Int 1) in
    JS.parseInt stepNumber
  else JS.Int 1.

Definition saveStepNumberToUrl (stepNumber : JS.numeric) (w : Browser.Window)
  : Browser.Window :=
  if negb (Browser.pushStateAvailable w) then w
  else
    let newHash :=
      if JS.gt stepNumber (JS.Int 1) then "#step" +:+ JS.toString stepNumber
      else "" in
    if decide (Browser.hash w = newHash) then w
    else
      let newUrl :=
        if JS.nonempty (Browser.hash w)
        then JS.replace (Browser.href w) (Browser.hash w) newHash
        else Browser.href w +:+ newHash in
      Browser.pushState newUrl w.

End Url.

(** ** The checkout store *)

Module Store.

Record State := { stepNumber : JS.numeric }.

Record action := { type : string; payload : JS.numeric }.

(** What happened, in the order in which it happened. *)
Inductive effect :=
  | Notified (a : action)              (* [onEvent( action )] was called *)
  | UrlSaved (stepNumber : JS.numeric) (* [saveStepNumberToUrl( n )] was called *)
  | Committed (a : action).            (* the reducer was applied to [action] *)

Record World := {
  window : Browser.Window;
  state : State;
  trace : list effect
}.

Definition initialState : State := {| stepNumber := JS.Int 1 |}.

Definition reducer (st : State) (a : action) : State :=
  if decide (type a = "STEP_NUMBER_SET") then {| stepNumber := payload a |}
  else st.

(** A generator that yields actions and returns one. *)
Inductive routine :=
  | Yield (a : action) (next : routine)
  | Return (a : action).

Definition changeStep (payload : JS.numeric) : routine :=
  Yield {| type := "STEP_NUMBER_CHANGE_EVENT"; payload := payload |}
    (Return {| type := "STEP_NUMBER_SET"; payload := payload |}).

(** [onEvent], the callback of the events collaborator: all that is known
    of it is that it was called. *)
Definition onEvent (a : action) (w : World) : World :=
  {| window := window w; state := state w; trace := trace w ++ [Notified a] |}.

Definition saveStepNumberToUrl (n : JS.numeric) (w : World) : World :=
  {| window := Url.saveStepNumberToUrl n (window w);
     state := state w;
     trace := trace w ++ [UrlSaved n] |}.

(** [controls.STEP_NUMBER_CHANGE_EVENT] *)
Definition STEP_NUMBER_CHANGE_EVENT (a : action) (w : World) : World :=
  saveStepNumberToUrl (payload a) (onEvent a w).

Definition getStepNumber (st : State) : JS.numeric := stepNumber st.

(** Modelled from the spec: the registry behind [useRegisterPrimaryStore]
    and [usePrimaryDispatch] is not part of the sources.  The store is a
    synchronous reducer store whose actions may be multi-phase: the side
    effect of each yielded action runs first (its control, when one is
    registered for its type), then the returned action is committed through
    the reducer, all before dispatch returns. *)
Definition control (a : action) (w : World) : World :=
  if decide (type a = "STEP_NUMBER_CHANGE_EVENT") then STEP_NUMBER_CHANGE_EVENT a w
  else w.

(** Modelled from the spec: the commit of an action, the one place where
    the reducer is applied. *)
Definition commit (a : action) (w : World) : World :=
  {| window := window w;
     state := reducer (state w) a;
     trace := trace w ++ [Committed a] |}.

(** Modelled from the spec: the dispatch of an action creator that is a
    generator, side effects first, commit last. *)
Fixpoint dispatch (r : routine) (w : World) : World :=
  match r with
  | Yield a next => dispatch next (control a w)
  | Return a => commit a w
  end.

End Store.

(** ** Steps and their annotation *)

Module Checkout.

(** A value without a truthy [then]: the code only tells [true], [false]
    and null or undefined apart; [VOther] is any other value of that
    kind. *)
Inductive value :=
  | VBool (b : bool)
  | VNullish
  | VOther.

(** What [isCompleteCallback] hands back: a value without a truthy [then],
    a promise (its [then] can be called), or a value whose [then] is
    truthy but cannot be called. *)
Inductive completion :=
  | Plain (v : value)
  | Deferred (promise : nat)
  | NotCallable.

(** The step descriptor.  The content fields (title, active, incomplete and
    complete content, aria labels) play no part in the control flow and are
    left out; the payment method handed to [isCompleteCallback] is its
    identifier. *)
Record Step := {
  id : string;
  hasStepNumber : bool;
  isCompleteCallback : option (option string -> completion);
  isEditableCallback : option bool
}.

(** [{ ...step, stepNumber, stepIndex }]; [None] is [null]. *)
Record AnnotatedStep := {
  step : Step;
  stepNumber : option nat;
  stepIndex : nat
}.

(** [steps.map( ( step, index ) => ... )] with the counter
    [numberedStepNumber] that the callback updates. *)
Fixpoint annotate_from (numberedStepNumber index : nat) (steps : list Step)
  : list AnnotatedStep :=
  match steps with
  | [] => []
  | s :: rest =>
      let numberedStepNumber' :=
        if hasStepNumber s then numberedStepNumber + 1 else numberedStepNumber in
      {| step := s;
         stepNumber := if hasStepNumber s then Some numberedStepNumber' else None;
         stepIndex := index |}
      :: annotate_from numberedStepNumber' (index + 1) rest
  end.

Definition getAnnotatedSteps (steps : list Step) : JS.result (list AnnotatedStep) :=
  let annotatedSteps := annotate_from 0 0 steps in
  if length annotatedSteps <? 1 then JS.Throw (JS.Error "No steps found")
  else JS.Ok annotatedSteps.

(** The [stepNumber] field as the JavaScript value it is. *)
Definition num (stepNumber : option nat) : JS.numeric :=
  match stepNumber with
  | Some k => JS.Int (Z.of_nat k)
  | None => JS.Null
  end.

(** [step.stepNumber && step.stepNumber < stepNumber] *)
Definition isBefore (a : AnnotatedStep) (stepNumber : JS.numeric) : bool :=
  JS.truthy (num (Checkout.stepNumber a))
  && JS.lt (num (Checkout.stepNumber a)) stepNumber.

(** [stepCompleteStatus[ id ] ?? false], for ids that do not name a
    property that every object inherits ([constructor], [toString]...). *)
Definition statusOf (stepCompleteStatus : gmap string bool) (i : string) : bool :=
  default false (stepCompleteStatus !! i).

(** [steps.reduce( ( allComplete, step ) => ..., false )] *)
Definition areAllPreviousStepsComplete (steps : list AnnotatedStep)
    (stepNumber : JS.numeric) (stepCompleteStatus : gmap string bool) : bool :=
  fold_left
    (fun allComplete a =>
       if isBefore a stepNumber then
         if negb allComplete then false
         else statusOf stepCompleteStatus (id (step a))
       else allComplete)
    steps false.

(** [Array.prototype.find] with the index handed to the callback. *)
Fixpoint find_from {A} (p : A -> nat -> bool) (index : nat) (l : list A) : option A :=
  match l with
  | [] => None
  | x :: rest => if p x index then Some x else find_from p (index + 1) rest
  end.

Definition find {A} (p : A -> nat -> bool) (l : list A) : option A :=
  find_from p 0 l.

(** [annotatedSteps.find( step => step.stepNumber === stepNumber )] *)
Definition activeStepOf (annotatedSteps : list AnnotatedStep) (stepNumber : JS.numeric)
  : JS.result AnnotatedStep :=
  match find (fun a _ => JS.strict_eq (num (Checkout.stepNumber a)) stepNumber)
             annotatedSteps with
  | Some a => JS.Ok a
  | None => JS.Throw (JS.Error "The active step was lost")
  end.

(** [annotatedSteps.find( ( step, index ) =>
      index > activeStep.stepIndex && step.hasStepNumber )] *)
Definition nextStepOf (annotatedSteps : list AnnotatedStep) (activeStep : AnnotatedStep)
  : option AnnotatedStep :=
  find (fun a index => (stepIndex activeStep <? index) && hasStepNumber (step a))
       annotatedSteps.

(** [!! nextStep && nextStep.hasStepNumber] *)
Definition isThereAnotherNumberedStep (nextStep : option AnnotatedStep) : bool :=
  match nextStep with
  | Some a => hasStepNumber (step a)
  | None => false
  end.

(** *** The completion gate and what each step is rendered with *)

Inductive FormStatus := loading | ready | validating.

(** [formStatus === 'loading'] *)
Definition isLoading (f : FormStatus) : bool :=
  match f with
  | loading => true
  | _ => false
  end.

(** [formStatus === 'ready'] *)
Definition isReady (f : FormStatus) : bool :=
  match f with
  | ready => true
  | _ => false
  end.

(** The state that lives across renders: the store with the window and
    the trace, the form status and the completion map. *)
Record Session := {
  world : Store.World;
  formStatus : FormStatus;
  stepCompleteStatus : gmap string bool
}.

(** Modelled from the spec: [useFormStatus] is not part of the sources.
    The completion check sets the form status to validating and back to ready. *)
Definition setFormStatus (f : FormStatus) (s : Session) : Session :=
  {| world := world s; formStatus := f; stepCompleteStatus := stepCompleteStatus s |}.

(** Modelled from the spec: [setFormReady] of [useFormStatus]. *)
Definition setFormReady : Session -> Session := setFormStatus ready.

(** Modelled from the spec: [setFormValidating] of [useFormStatus]. *)
Definition setFormValidating : Session -> Session := setFormStatus validating.

(** Modelled from the spec: [useSetStepComplete] is not part of the
    sources.  It records the completion status of the step in the
    completion map. *)
Definition setStepComplete (i : string) (isComplete : bool) (s : Session) : Session :=
  {| world := world s;
     formStatus := formStatus s;
     stepCompleteStatus := <[i := isComplete]> (stepCompleteStatus s) |}.

(** [changeStep( n )] of [usePrimaryDispatch], on the session. *)
Definition changeStep (n : JS.numeric) (s : Session) : Session :=
  {| world := Store.dispatch (Store.changeStep n) (world s);
     formStatus := formStatus s;
     stepCompleteStatus := stepCompleteStatus s |}.

(** What [Checkout] hands to the [CheckoutStepContainer] of one step,
    with what the container reads from its hooks.  [goToNextStep] and
    [onEdit] are closures; they are given by what they captured: the
    [nextStep] of the render, and the number [onEdit] changes to. *)
Record Container := {
  props_step : AnnotatedStep;            (* [{ ...step }], with its [id] *)
  isComplete : bool;
  props_stepNumber : option nat;
  shouldShowNextButton : bool;
  goToNextStep : option AnnotatedStep;
  onEdit : option JS.numeric;
  activeStep : AnnotatedStep;            (* [useActiveStep()] *)
  activePaymentMethod : option string    (* [usePaymentMethod()] *)
}.

(** [step.stepNumber || null] *)
Definition orNull (stepNumber : option nat) : option nat :=
  if JS.truthy (num stepNumber) then stepNumber else None.

Definition container (annotatedSteps : list AnnotatedStep) (active : AnnotatedStep)
    (paymentMethod : option string) (s : Session) (a : AnnotatedStep) : Container :=
  let nextStep := nextStepOf annotatedSteps active in
  {| props_step := a;
     isComplete := statusOf (stepCompleteStatus s) (id (step a));
     props_stepNumber := orNull (stepNumber a);
     shouldShowNextButton :=
       hasStepNumber (step a)
       && bool_decide (id (step a) = id (step active))
       && isThereAnotherNumberedStep nextStep;
     goToNextStep := nextStep;
     onEdit :=
       if isReady (formStatus s)
          && negb (bool_decide (id (step a) = id (step active)))
          && hasStepNumber (step a)
          && default false (isEditableCallback (step a))
       then Some (num (stepNumber a)) else None;
     activeStep := active;
     activePaymentMethod := paymentMethod |}.

(** The render of [Checkout], down to the containers of the steps; while
    the form is loading a placeholder is rendered in their place.  The
    shape check of [validateSteps] is not part of the sources and is left
    out. *)
Definition Checkout (steps : list Step) (paymentMethod : option string) (s : Session)
  : JS.result (list Container) :=
  annotatedSteps <- getAnnotatedSteps steps ;;
  active <- activeStepOf annotatedSteps (Store.getStepNumber (Store.state (world s))) ;;
  if isLoading (formStatus s) then JS.Ok []
  else JS.Ok (map (container annotatedSteps active paymentMethod s) annotatedSteps).

(** [() => changeStep( nextStep.stepNumber )] *)
Definition callGoToNextStep (c : Container) (s : Session) : JS.result Session :=
  match goToNextStep c with
  | Some nextStep => JS.Ok (changeStep (num (stepNumber nextStep)) s)
  | None => JS.Throw (JS.TypeError "nextStep is undefined")
  end.

Definition evaluateContinue (c : Container) (result : value) (s : Session)
  : JS.result Session :=
  let s := setFormReady s in
  match result with
  | VBool true =>
      let s := setStepComplete (id (step (props_step c))) true s in
      callGoToNextStep c s
  | _ => JS.Ok (setStepComplete (id (step (props_step c))) false s)
  end.

(** How a click on the continue button ends: the decision was taken, or
    [evaluateContinue] was handed to [then] and waits for the promise. *)
Inductive clicked :=
  | Decided (s : Session)
  | Waiting (promise : nat) (s : Session).

(** [activeStep.isCompleteCallback?.( { activePaymentMethod } ) ?? true] *)
Definition isCompleteResult (c : Container) : completion :=
  match isCompleteCallback (step (activeStep c)) with
  | Some callback =>
      match callback (activePaymentMethod c) with
      | Plain VNullish => Plain (VBool true)
      | r => r
      end
  | None => Plain (VBool true)
  end.

(** [onClick].  On a truthy [then] the form is set to validating and
    [then] is called; when it cannot be called that call throws, after the
    form has been set to validating. *)
Definition onClick (c : Container) (s : Session) : JS.result clicked :=
  match isCompleteResult c with
  | Deferred promise => JS.Ok (Waiting promise (setFormValidating s))
  | NotCallable => JS.Throw (JS.TypeError "isCompleteResult.then is not a function")
  | Plain v => s' <- evaluateContinue c v s ;; JS.Ok (Decided s')
  end.

(** The promise that [onClick] waits for is fulfilled with [v]: the
    reaction registered by [then] runs on the session as it is then. *)
Definition fulfilled (c : Container) (v : value) (s : Session) : JS.result Session :=
  evaluateContinue c v s.

(** [! stepNumber || activeStep.stepNumber > stepNumber] *)
Definition shouldShowStepCompleteIcon (c : Container) : bool :=
  negb (JS.truthy (num (props_stepNumber c)))
  || JS.gt (num (stepNumber (activeStep c))) (num (props_stepNumber c)).

(** What [CheckoutStepContainer] hands to [CheckoutStep]: the complete
    indicator, and which summary is shown. *)
Record Rendered := {
  isActive : bool;
  shownComplete : bool;       (* [isComplete={ shouldShowStepCompleteIcon }] *)
  summaryOfComplete : bool    (* [isComplete ? completeStepContent : incompleteStepContent] *)
}.

Definition CheckoutStepContainer (c : Container) : Rendered :=
  {| isActive := bool_decide (id (step (activeStep c)) = id (step (props_step c)));
     shownComplete := shouldShowStepCompleteIcon c;
     summaryOfComplete := isComplete c |}.

(** The constructor of [useChangeStepNumberForUrl]: the first
    synchronisation with the URL. *)
Definition initialSync (steps : list AnnotatedStep) (s : Session) : Session :=
  let newStepNumber := Url.getStepNumberFromUrl (Store.window (world s)) in
  if areAllPreviousStepsComplete steps newStepNumber (stepCompleteStatus s)
  then changeStep newStepNumber s
  else changeStep (JS.Int 1) s.

(** The listener that [useChangeStepNumberForUrl] registers for
    [hashchange]; [isSubscribed] is the flag that the cleanup of the effect
    clears. *)
Definition onHashChange (isSubscribed : bool) (s : Session) : Session :=
  let newStepNumber := Url.getStepNumberFromUrl (Store.window (world s)) in
  if isSubscribed then changeStep newStepNumber s else s.

(** [SubmitButtonWrapper]: the [disabled] that it hands to the submit
    button. *)
Definition SubmitButtonWrapper (isThereAnotherNumberedStep : bool) (f : FormStatus)
  : bool :=
  isThereAnotherNumberedStep || negb (isReady f).

(** The render of [Checkout], down to the submit button: whether it is
    disabled, or [None] while the form is loading and the placeholder is
    rendered without it. *)
Definition CheckoutSubmitButton (steps : list Step) (s : Session)
  : JS.result (option bool) :=
  annotatedSteps <- getAnnotatedSteps steps ;;
  active <- activeStepOf annotatedSteps (Store.getStepNumber (Store.state (world s))) ;;
  if isLoading (formStatus s) then JS.Ok None
  else JS.Ok (Some (SubmitButtonWrapper
                      (isThereAnotherNumberedStep (nextStepOf annotatedSteps active))
                      (formStatus s))).

End Checkout.

(** ** The coupon form *)

Module Coupon.

Inductive payload :=
  | OfCoupon (coupon : string)   (* [{ coupon: ... }] *)
  | OfError (type : string).     (* [{ type: ... }] *)

Record event := { type : string; payload_of : payload }.

(** The calls that a submission makes, in call order. *)
Inductive effect :=
  | PreventDefault
  | SetIsCouponApplied (b : bool)
  | Emitted (e : event)               (* [onEvent( e )] *)
  | SubmitCoupon (coupon : string)
  | CouponAdded
  | SetHasCouponError (b : bool)
  | SetCouponFieldValue (value : string)
  | SetIsApplyButtonActive (b : bool).

(** A character of the class [[a-zA-Z0-9_-]]. *)
Definition inClass (c : ascii) : bool :=
  let n := nat_of_ascii c in
  ((97 <=? n) && (n <=? 122)) || ((65 <=? n) && (n <=? 90))
  || ((48 <=? n) && (n <=? 57)) || (n =? 95) || (n =? 45).

Fixpoint allInClass (s : string) : bool :=
  match s with
  | "" => true
  | String c s' => inClass c && allInClass s'
  end.

(** [coupon.match( /^[a-zA-Z0-9_-]+$/ )], as the condition reads it: a
    match or [null]. *)
Definition isCouponValid (coupon : string) : bool :=
  JS.nonempty coupon && allInClass coupon.

Definition handleFormSubmit
    (couponFieldValue : string)
    (setHasCouponError : bool -> list effect)
    (couponAdded : option (list effect))
    (setIsCouponApplied : bool -> list effect)
    (onEvent : event -> list effect)
    (submitCoupon : string -> list effect) : list effect :=
  [PreventDefault] ++
  if isCouponValid couponFieldValue then
    setIsCouponApplied true
    ++ onEvent {| type := "a8c_checkout_add_coupon";
                  payload_of := OfCoupon couponFieldValue |}
    ++ submitCoupon couponFieldValue
    ++ default [] couponAdded
  else
    onEvent {| type := "a8c_checkout_add_coupon_error";
               payload_of := OfError "Invalid code" |}
    ++ setHasCouponError true.

Definition handleFieldInput
    (input : string)
    (setCouponFieldValue : string -> list effect)
    (setIsApplyButtonActive : bool -> list effect)
    (setHasCouponError : bool -> list effect) : list effect :=
  if 0 <? String.length input then
    setCouponFieldValue input ++ setIsApplyButtonActive true
    ++ setHasCouponError false
  else setIsApplyButtonActive false.

(** The identifiers that the [onSubmit] and [onChange] handlers of the
    form mention, each with what it is bound to where the handlers are
    created, or [None] when nothing declares it. *)
Record Scope := {
  couponFieldValue : option string;
  setCouponFieldValue : option (string -> list effect);
  setIsApplyButtonActive : option (bool -> list effect);
  setHasCouponError : option (bool -> list effect);
  couponAdded : option (option (list effect));
  setIsCouponApplied : option (bool -> list effect);
  onEvent : option (event -> list effect);
  submitCoupon : option (string -> list effect)
}.

(** Reading an identifier: one that nothing declares throws. *)
Definition identifier {A} (name : string) (binding : option A) : JS.result A :=
  match binding with
  | Some v => JS.Ok v
  | None => JS.Throw (JS.ReferenceError name)
  end.

(** [event => { handleFormSubmit( event, couponFieldValue, ... ) }]: the
    arguments are read from left to right, then the call is made. *)
Definition onSubmit (sc : Scope) : JS.result (list effect) :=
  value <- identifier "couponFieldValue" (couponFieldValue sc) ;;
  setError <- identifier "setHasCouponError" (setHasCouponError sc) ;;
  added <- identifier "couponAdded" (couponAdded sc) ;;
  setApplied <- identifier "setIsCouponApplied" (setIsCouponApplied sc) ;;
  emit <- identifier "onEvent" (onEvent sc) ;;
  submit <- identifier "submitCoupon" (submitCoupon sc) ;;
  JS.Ok (handleFormSubmit value setError added setApplied emit submit).

(** [input => { handleFieldInput( input, setCouponFieldValue, ... ) }] *)
Definition onChange (sc : Scope) (input : string) : JS.result (list effect) :=
  setValue <- identifier "setCouponFieldValue" (setCouponFieldValue sc) ;;
  setActive <- identifier "setIsApplyButtonActive" (setIsApplyButtonActive sc) ;;
  setError <- identifier "setHasCouponError" (setHasCouponError sc) ;;
  JS.Ok (handleFieldInput input setValue setActive setError).

(** The scope of the handlers inside [Coupon]: the props [id],
    [className], [disabled], [submitCoupon] and [couponStatus], [onEvent]
    from [useEvents], and the two pieces of state [isApplyButtonActive] and
    [couponFieldValue] with their setters.  [setHasCouponError],
    [couponAdded] and [setIsCouponApplied] are declared neither there nor
    at the top of the file. *)
Definition scope (fieldValue : string) : Scope :=
  {| couponFieldValue := Some fieldValue;
     setCouponFieldValue := Some (fun value => [SetCouponFieldValue value]);
     setIsApplyButtonActive := Some (fun b => [SetIsApplyButtonActive b]);
     setHasCouponError := None;
     couponAdded := None;
     setIsCouponApplied := None;
     onEvent := Some (fun e => [Emitted e]);
     submitCoupon := Some (fun coupon => [SubmitCoupon coupon]) |}.

(** The render of [Coupon]: no form once the coupon is applied, otherwise
    the form with its handlers, given by their scope. *)
Definition Coupon (couponStatus fieldValue : string) : option Scope :=
  if bool_decide (couponStatus = "applied") then None
  else Some (scope fieldValue).

(** The events among the effects. *)
Definition events (l : list effect) : list event :=
  omap (fun x => match x with Emitted e => Some e | _ => None end) l.

(** The coupons handed to [submitCoupon]. *)
Definition submitted (l : list effect) : list string :=
  omap (fun x => match x with SubmitCoupon c => Some c | _ => None end) l.

(** The two pieces of state of [Coupon]. *)
Record FormState := {
  fieldValue : string;          (* [couponFieldValue] *)
  applyButtonActive : bool      (* [isApplyButtonActive] *)
}.

(** What a call does to the state: the two setters of [useState] set
    their piece, the other calls leave the state alone. *)
Definition apply (st : FormState) (e : effect) : FormState :=
  match e with
  | SetCouponFieldValue value =>
      {| fieldValue := value; applyButtonActive := applyButtonActive st |}
  | SetIsApplyButtonActive b =>
      {| fieldValue := fieldValue st; applyButtonActive := b |}
  | _ => st
  end.

Definition run (effects : list effect) (st : FormState) : FormState :=
  fold_left apply effects st.

(** One change of the field handled by [handleFieldInput], with its three
    setters bound. *)
Definition fieldInput (st : FormState) (input : string) : FormState :=
  run (handleFieldInput input
         (fun value => [SetCouponFieldValue value])
         (fun b => [SetIsApplyButtonActive b])
         (fun b => [SetHasCouponError b])) st.

End Coupon.

(** ** Notions used in the statements *)

Module Notions.
Import Checkout.

(** The number of steps of a list that carry a number. *)
Fixpoint numbered (steps : list Step) : nat :=
  match steps with
  | [] => 0
  | s :: rest => (if hasStepNumber s then 1 else 0) + numbered rest
  end.

(** Every step with a number below [n] has a [true] entry in the
    completion map. *)
Definition allPreviousComplete (steps : list AnnotatedStep) (n : JS.numeric)
    (stepCompleteStatus : gmap string bool) : Prop :=
  ∀ a k, a ∈ steps → stepNumber a = Some k → JS.lt (num (Some k)) n = true →
         stepCompleteStatus !! id (step a) = Some true.

(** The fragment that stands for step [n]: [#step<n>] above 1, none
    otherwise. *)
Definition fragmentFor (n : JS.numeric) : string :=
  if JS.gt n (JS.Int 1) then "#step" +:+ JS.toString n else "".

(** The character [c] does not occur in [s]. *)
Fixpoint freeOf (c : ascii) (s : string) : bool :=
  match s with
  | "" => true
  | String c' s' => negb (bool_decide (c = c')) && freeOf c s'
  end.

(** The address ends with a [#] that nothing follows. *)
Definition endsWithBareHash (w : Browser.Window) : bool :=
  match JS.cut "#" (Browser.href w) with
  | Some (_, "") => true
  | _ => false
  end.

(** The number is one on which the embedding of numbers is exact: [NaN],
    [null], or an integer up to [JS.MAX_SAFE_INTEGER] in absolute value. *)
Definition safe (n : JS.numeric) : bool :=
  match n with
  | JS.Int z => (Z.abs z <=? JS.MAX_SAFE_INTEGER)%Z
  | JS.NaN | JS.Null => true
  end.

(** The address without its fragment: what is before the first [#]. *)
Definition addressBase (w : Browser.Window) : string :=
  match JS.cut "#" (Browser.href w) with
  | Some (before, _) => before
  | None => Browser.href w
  end.

(** The string is empty or starts with a character that is not a digit. *)
Definition startsNonDigit (s : string) : bool := negb (JS.starts_with_digit s).

(** The last string of a list that is not empty, [d] when there is none. *)
Definition lastNonEmpty (d : string) (l : list string) : string :=
  fold_left (fun acc x => if JS.nonempty x then x else acc) l d.

End Notions.

(** ** Sample data *)

Module Sample.
Import Checkout.

Definition stepA : Step :=
  {| id := "A"; hasStepNumber := true;
     isCompleteCallback := None; isEditableCallback := None |}.
Definition stepB : Step :=
  {| id := "B"; hasStepNumber := false;
     isCompleteCallback := None; isEditableCallback := None |}.
Definition stepC : Step :=
  {| id := "C"; hasStepNumber := true;
     isCompleteCallback := None; isEditableCallback := None |}.

Definition steps : list Step := [stepA; stepB; stepC].

Definition annotatedA : AnnotatedStep :=
  {| step := stepA; stepNumber := Some 1; stepIndex := 0 |}.
Definition annotatedB : AnnotatedStep :=
  {| step := stepB; stepNumber := None; stepIndex := 1 |}.
Definition annotatedC : AnnotatedStep :=
  {| step := stepC; stepNumber := Some 2; stepIndex := 2 |}.

Definition annotated : list AnnotatedStep := [annotatedA; annotatedB; annotatedC].

(** A window on the checkout page, without fragment. *)
Definition window : Browser.Window :=
  {| Browser.href := "https://example.com/checkout";
     Browser.pushStateAvailable := true;
     Browser.back := [];
     Browser.forward := [];
     Browser.loads := 1 |}.

(** The same page at [#step3], in a browser without [pushState]. *)
Definition oldWindow : Browser.Window :=
  {| Browser.href := "https://example.com/checkout#step3";
     Browser.pushStateAvailable := false;
     Browser.back := [];
     Browser.forward := [];
     Browser.loads := 1 |}.

(** The same page with a [#] that nothing follows. *)
Definition bareHashWindow : Browser.Window :=
  {| Browser.href := "https://example.com/checkout#";
     Browser.pushStateAvailable := true;
     Browser.back := [];
     Browser.forward := [];
     Browser.loads := 1 |}.

Definition world : Store.World :=
  {| Store.window := window; Store.state := Store.initialState; Store.trace := [] |}.

(** The session at the first step, nothing completed yet. *)
Definition session : Session :=
  {| Checkout.world := world; formStatus := ready; stepCompleteStatus := ∅ |}.

(** A step whose completion check is a promise. *)
Definition stepP : Step :=
  {| id := "P"; hasStepNumber := true;
     isCompleteCallback := Some (fun _ => Deferred 0);
     isEditableCallback := None |}.

(** A checkout whose first step has such a check, rendered at step 1. *)
Definition gateSteps : list Step := [stepP; stepB; stepC].

Definition gateActive : AnnotatedStep :=
  {| step := stepP; stepNumber := Some 1; stepIndex := 0 |}.

Definition gateAnnotated : list AnnotatedStep := [gateActive; annotatedB; annotatedC].

Definition gateContainer : Container :=
  container gateAnnotated gateActive None session gateActive.

(** The container of the step without number in the render of [steps]. *)
Definition containerB : Container :=
  container annotated annotatedA None session annotatedB.

(** The sample page at [#step2abc#step5]. *)
Definition garbageWindow : Browser.Window :=
  {| Browser.href := "https://example.com/checkout#step2abc#step5";
     Browser.pushStateAvailable := true;
     Browser.back := [];
     Browser.forward := [];
     Browser.loads := 1 |}.

(** The sample page at [#stepfoo]. *)
Definition malformedWindow : Browser.Window :=
  {| Browser.href := "https://example.com/checkout#stepfoo";
     Browser.pushStateAvailable := true;
     Browser.back := [];
     Browser.forward := [];
     Browser.loads := 1 |}.

(** The sample page at [#step2]. *)
Definition secondStepWindow : Browser.Window :=
  {| Browser.href := "https://example.com/checkout#step2";
     Browser.pushStateAvailable := true;
     Browser.back := [];
     Browser.forward := [];
     Browser.loads := 1 |}.

Definition sessionAt (w : Browser.Window) (n : JS.numeric) (f : FormStatus) : Session :=
  {| Checkout.world :=
       {| Store.window := w;
          Store.state := {| Store.stepNumber := n |};
          Store.trace := [] |};
     formStatus := f;
     stepCompleteStatus := ∅ |}.

(** A checkout whose second step can be edited, rendered at its third. *)
Definition stepE : Step :=
  {| id := "E"; hasStepNumber := true;
     isCompleteCallback := None; isEditableCallback := Some true |}.

Definition editSteps : list Step := [stepA; stepE; stepC].

(** The container of the first step in the render of [steps]. *)
Definition containerA : Container :=
  container annotated annotatedA None session annotatedA.

(** A checkout whose first step refuses to be complete. *)
Definition stepF : Step :=
  {| id := "F"; hasStepNumber := true;
     isCompleteCallback := Some (fun _ => Plain (VBool false));
     isEditableCallback := None |}.

Definition refusingSteps : list Step := [stepF; stepC].

Definition refusingActive : AnnotatedStep :=
  {| step := stepF; stepNumber := Some 1; stepIndex := 0 |}.

Definition refusingAnnotated : list AnnotatedStep :=
  [refusingActive; {| step := stepC; stepNumber := Some 2; stepIndex := 1 |}].

Definition refusingContainer : Container :=
  container refusingAnnotated refusingActive None session refusingActive.

(** The render of [editSteps] at its third step, and the container of the
    step that can be edited. *)
Definition editAnnotated : list AnnotatedStep :=
  [annotatedA;
   {| step := stepE; stepNumber := Some 2; stepIndex := 1 |};
   {| step := stepC; stepNumber := Some 3; stepIndex := 2 |}].

Definition editSession : Session := sessionAt window (JS.Int 3) ready.

Definition editContainer : Container :=
  container editAnnotated
    {| step := stepC; stepNumber := Some 3; stepIndex := 2 |}
    None editSession
    {| step := stepE; stepNumber := Some 2; stepIndex := 1 |}.

End Sample.

(** * Properties *)

(** ** Step annotation *)

Section Annotation.
Import Checkout Notions.

Lemma annotate_from_length c idx steps :
  length (annotate_from c idx steps) = length steps.
Proof.
  revert c idx. induction steps as [|s rest IH]; intros c idx; simpl; [done|].
  by rewrite IH.
Qed.

Lemma annotate_from_steps c idx steps :
  map step (annotate_from c idx steps) = steps.
Proof.
  revert c idx. induction steps as [|s rest IH]; intros c idx; simpl; [done|].
  by rewrite IH.
Qed.

Lemma annotate_from_lookup c idx steps i a :
  annotate_from c idx steps !! i = Some a →
  steps !! i = Some (step a)
  ∧ stepIndex a = idx + i
  ∧ stepNumber a =
      if hasStepNumber (step a) then Some (c + numbered (take (S i) steps)) else None.
Proof.
  revert c idx i. induction steps as [|s rest IH]; intros c idx i; [done|].
  destruct i as [|i]; simpl.
  - intros [= <-]; simpl. split; [done|]. split; [lia|].
    destruct (hasStepNumber s); [f_equal; lia | done].
  - intros H. apply IH in H as (Hs & Hi & Hn). split; [done|]. split; [lia|].
    rewrite Hn. destruct (hasStepNumber (step a)); [|done].
    f_equal. destruct (hasStepNumber s); lia.
Qed.

Lemma annotate_from_numbers c idx steps :
  omap stepNumber (annotate_from c idx steps) = seq (S c) (numbered steps).
Proof.
  revert c idx. induction steps as [|s rest IH]; intros c idx; simpl; [done|].
  destruct (hasStepNumber s); simpl.
  - rewrite IH. by replace (c + 1) with (S c) by lia.
  - by rewrite IH.
Qed.

(** C2. For a list of steps that is not empty, [getAnnotatedSteps] returns
    a list of the same length that holds the same steps in the same order;
    the step at position [i] gets [stepIndex = i]; a step without number
    gets [stepNumber = null]; a step with a number gets the count of the
    numbered steps up to and including it, so that the numbers handed out,
    read in list order, are exactly 1, 2, ..., m for the m numbered steps. *)
Theorem getAnnotatedSteps_numbers_and_indices (steps : list Step) :
  steps ≠ [] →
  ∃ annotated,
    getAnnotatedSteps steps = JS.Ok annotated
    ∧ length annotated = length steps
    ∧ map step annotated = steps
    ∧ (∀ i a, annotated !! i = Some a →
         stepIndex a = i
         ∧ stepNumber a =
             if hasStepNumber (step a)
             then Some (numbered (take (S i) steps)) else None)
    ∧ omap stepNumber annotated = seq 1 (numbered steps).
Proof.
  intros Hne. exists (annotate_from 0 0 steps).
  split.
  { unfold getAnnotatedSteps. rewrite annotate_from_length.
    destruct steps; [done|]. done. }
  split; [apply annotate_from_length|].
  split; [apply annotate_from_steps|].
  split; [|apply annotate_from_numbers].
  intros i a H. apply annotate_from_lookup in H as (_ & Hi & Hn).
  split; [lia|]. rewrite Hn. done.
Qed.

End Annotation.

(** ** The next numbered step *)

Section NextStep.
Import Checkout Notions.

Lemma find_from_Some {A} (p : A → nat → bool) idx (l : list A) x :
  find_from p idx l = Some x ↔
  ∃ i, l !! i = Some x ∧ p x (idx + i) = true
       ∧ ∀ j y, j < i → l !! j = Some y → p y (idx + j) = false.
Proof.
  revert idx. induction l as [|h rest IH]; intros idx; simpl.
  { split; [done|]. by intros (i & ? & _). }
  destruct (p h idx) eqn:Hp.
  - split.
    + intros [= <-]. exists 0. rewrite Nat.add_0_r. split; [done|].
      split; [done|]. intros; lia.
    + intros (i & Hi & Hpx & Hfirst). destruct i as [|i]; [by simplify_eq/=|].
      specialize (Hfirst 0 h ltac:(lia) eq_refl).
      rewrite Nat.add_0_r in Hfirst. congruence.
  - rewrite IH. split.
    + intros (i & Hi & Hpx & Hfirst). exists (S i). split; [done|].
      split; [by replace (idx + S i) with (idx + 1 + i) by lia|].
      intros [|j] y Hj Hy; simplify_eq/=.
      * by rewrite Nat.add_0_r.
      * replace (idx + S j) with (idx + 1 + j) by lia. apply Hfirst; [lia|done].
    + intros (i & Hi & Hpx & Hfirst). destruct i as [|i].
      { simplify_eq/=. rewrite Nat.add_0_r in Hpx. congruence. }
      exists i. split; [done|].
      split; [by replace (idx + 1 + i) with (idx + S i) by lia|].
      intros j y Hj Hy. replace (idx + 1 + j) with (idx + S j) by lia.
      apply Hfirst; [lia|done].
Qed.

Lemma find_from_None {A} (p : A → nat → bool) idx (l : list A) :
  find_from p idx l = None ↔ ∀ i y, l !! i = Some y → p y (idx + i) = false.
Proof.
  revert idx. induction l as [|h rest IH]; intros idx; simpl.
  { split; [by intros _ i y|done]. }
  destruct (p h idx) eqn:Hp.
  - split; [done|]. intros H. specialize (H 0 h eq_refl).
    rewrite Nat.add_0_r in H. congruence.
  - rewrite IH. split.
    + intros H [|i] y Hy; simplify_eq/=; [by rewrite Nat.add_0_r|].
      replace (idx + S i) with (idx + 1 + i) by lia. by apply H.
    + intros H i y Hy. replace (idx + 1 + i) with (idx + S i) by lia. by apply H.
Qed.

Lemma getAnnotatedSteps_Ok steps annotated :
  getAnnotatedSteps steps = JS.Ok annotated → annotated = annotate_from 0 0 steps.
Proof.
  unfold getAnnotatedSteps. destruct (_ <? _); congruence.
Qed.

Lemma annotated_stepIndex steps annotated i a :
  getAnnotatedSteps steps = JS.Ok annotated →
  annotated !! i = Some a → stepIndex a = i.
Proof.
  intros ->%getAnnotatedSteps_Ok H.
  by apply annotate_from_lookup in H as (_ & -> & _).
Qed.

(** C5. On the list that [getAnnotatedSteps] returns, and for any active
    step, the next step is [n] exactly when [n] is a step of the list with
    a number whose [stepIndex] is greater than the active step's and no
    step with a number lies strictly between the two; and
    [isThereAnotherNumberedStep] is true exactly when some step of the
    list with a number has a [stepIndex] greater than the active step's. *)
Theorem nextStep_first_numbered_after_active
    (steps : list Step) (annotated : list AnnotatedStep) (active : AnnotatedStep) :
  getAnnotatedSteps steps = JS.Ok annotated →
  (∀ n, nextStepOf annotated active = Some n ↔
        n ∈ annotated
        ∧ stepIndex active < stepIndex n
        ∧ hasStepNumber (step n) = true
        ∧ ∀ a, a ∈ annotated →
               stepIndex active < stepIndex a < stepIndex n →
               hasStepNumber (step a) = false)
  ∧ (isThereAnotherNumberedStep (nextStepOf annotated active) = true ↔
     ∃ a, a ∈ annotated
          ∧ stepIndex active < stepIndex a
          ∧ hasStepNumber (step a) = true).
Proof.
  intros Hann.
  assert (Hidx : ∀ i a, annotated !! i = Some a → stepIndex a = i)
    by (intros; by eapply annotated_stepIndex).
  assert (Hfirst : ∀ n, nextStepOf annotated active = Some n ↔
        n ∈ annotated
        ∧ stepIndex active < stepIndex n
        ∧ hasStepNumber (step n) = true
        ∧ ∀ a, a ∈ annotated →
               stepIndex active < stepIndex a < stepIndex n →
               hasStepNumber (step a) = false).
  { intros n. unfold nextStepOf, find. rewrite find_from_Some. simpl. split.
    - intros (i & Hi & Hp & Hbefore).
      pose proof (Hidx _ _ Hi) as Hn.
      apply andb_true_iff in Hp as [Hlt%Nat.ltb_lt Hnum].
      split; [by eapply list_elem_of_lookup_2|].
      split; [lia|]. split; [done|].
      intros a [j Hj]%list_elem_of_lookup_1 Hrange.
      pose proof (Hidx _ _ Hj) as Ha.
      specialize (Hbefore j a ltac:(lia) Hj).
      apply andb_false_iff in Hbefore as [Hge%Nat.ltb_ge|]; [lia|done].
    - intros ([i Hi]%list_elem_of_lookup_1 & Hlt & Hnum & Hbetween).
      pose proof (Hidx _ _ Hi) as Hn.
      exists i. split; [done|]. split.
      { apply andb_true_iff. split; [apply Nat.ltb_lt; lia|done]. }
      intros j y Hj Hy. pose proof (Hidx _ _ Hy) as Hyi.
      destruct (decide (stepIndex active < j)) as [Hgt|Hle].
      + apply andb_false_iff. right. apply Hbetween.
        * by eapply list_elem_of_lookup_2.
        * lia.
      + apply andb_false_iff. left. apply Nat.ltb_ge. lia. }
  split; [done|].
  destruct (nextStepOf annotated active) as [n|] eqn:Hnext; simpl.
  - destruct (Hfirst n) as [Hn _].
    destruct (Hn eq_refl) as (Hin & Hlt & Hnum & _). split; [|done].
    intros _. by exists n.
  - split; [done|]. intros (a & [i Hi]%list_elem_of_lookup_1 & Hlt & Hnum).
    unfold nextStepOf, find in Hnext. rewrite find_from_None in Hnext.
    specialize (Hnext i a Hi). simpl in Hnext.
    pose proof (Hidx _ _ Hi) as Ha.
    apply andb_false_iff in Hnext as [Hge%Nat.ltb_ge|]; [lia|congruence].
Qed.

End NextStep.

(** C2, on the sample: three steps, the second without number. *)
Lemma getAnnotatedSteps_numbers_and_indices_witness :
  Sample.steps ≠ []
  ∧ ∃ annotated,
      Checkout.getAnnotatedSteps Sample.steps = JS.Ok annotated
      ∧ length annotated = length Sample.steps
      ∧ map Checkout.step annotated = Sample.steps
      ∧ (∀ i a, annotated !! i = Some a →
           Checkout.stepIndex a = i
           ∧ Checkout.stepNumber a =
               if Checkout.hasStepNumber (Checkout.step a)
               then Some (Notions.numbered (take (S i) Sample.steps)) else None)
      ∧ omap Checkout.stepNumber annotated = seq 1 (Notions.numbered Sample.steps).
Proof.
  split; [discriminate|].
  apply (getAnnotatedSteps_numbers_and_indices Sample.steps). discriminate.
Defined.

Example getAnnotatedSteps_sample :
  Checkout.getAnnotatedSteps Sample.steps = JS.Ok Sample.annotated.
Proof. reflexivity. Qed.

Example getAnnotatedSteps_empty :
  Checkout.getAnnotatedSteps [] = JS.Throw (JS.Error "No steps found").
Proof. reflexivity. Qed.

(** C5, on the sample, with the first step active. *)
Lemma nextStep_first_numbered_after_active_witness :
  Checkout.getAnnotatedSteps Sample.steps = JS.Ok Sample.annotated
  ∧ (∀ n, Checkout.nextStepOf Sample.annotated Sample.annotatedA = Some n ↔
          n ∈ Sample.annotated
          ∧ Checkout.stepIndex Sample.annotatedA < Checkout.stepIndex n
          ∧ Checkout.hasStepNumber (Checkout.step n) = true
          ∧ ∀ a, a ∈ Sample.annotated →
                 Checkout.stepIndex Sample.annotatedA < Checkout.stepIndex a
                   < Checkout.stepIndex n →
                 Checkout.hasStepNumber (Checkout.step a) = false)
  ∧ (Checkout.isThereAnotherNumberedStep
       (Checkout.nextStepOf Sample.annotated Sample.annotatedA) = true ↔
     ∃ a, a ∈ Sample.annotated
          ∧ Checkout.stepIndex Sample.annotatedA < Checkout.stepIndex a
          ∧ Checkout.hasStepNumber (Checkout.step a) = true).
Proof.
  split; [reflexivity|].
  apply (nextStep_first_numbered_after_active
           Sample.steps Sample.annotated Sample.annotatedA).
  reflexivity.
Defined.

(** The scenario of the specification: with [A] active the next step is
    [C]; [B] is passed over because it has no number. *)
Example nextStep_sample :
  Checkout.activeStepOf Sample.annotated (JS.Int 1) = JS.Ok Sample.annotatedA
  ∧ Checkout.nextStepOf Sample.annotated Sample.annotatedA = Some Sample.annotatedC
  ∧ Checkout.isThereAnotherNumberedStep
      (Checkout.nextStepOf Sample.annotated Sample.annotatedA) = true.
Proof. repeat split; reflexivity. Qed.

Example nextStep_last_active :
  Checkout.nextStepOf Sample.annotated Sample.annotatedC = None
  ∧ Checkout.isThereAnotherNumberedStep
      (Checkout.nextStepOf Sample.annotated Sample.annotatedC) = false.
Proof. split; reflexivity. Qed.

(** ** The check of the previous steps *)

Section PreviousSteps.
Import Checkout Notions.

(** The fold starts from [false], and a [false] accumulator is never left:
    a step below the target returns [false] at once, any other step hands
    the accumulator on. *)
Lemma areAllPreviousStepsComplete_false steps n (status : gmap string bool) :
  areAllPreviousStepsComplete steps n status = false.
Proof.
  unfold areAllPreviousStepsComplete.
  induction steps as [|a rest IH]; simpl; [done|].
  by destruct (isBefore a n).
Qed.

(** The first synchronisation therefore never restores the step of the
    URL: it always changes to step 1. *)
Lemma initialSync_goes_to_first_step steps s :
  initialSync steps s = changeStep (JS.Int 1) s.
Proof.
  unfold initialSync. by rewrite areAllPreviousStepsComplete_false.
Qed.

(** C1. The code against the claim, on the sample steps.  For target 1
    with an empty completion map no step lies below the target, and for
    target 2 with step [A] recorded as complete every step below the
    target is complete; [areAllPreviousStepsComplete] returns [false] in
    both cases. *)
Theorem areAllPreviousStepsComplete_rejects_complete_predecessors :
  allPreviousComplete Sample.annotated (JS.Int 1) ∅
  ∧ areAllPreviousStepsComplete Sample.annotated (JS.Int 1) ∅ = false
  ∧ allPreviousComplete Sample.annotated (JS.Int 2) {[ "A" := true ]}
  ∧ areAllPreviousStepsComplete Sample.annotated (JS.Int 2) {[ "A" := true ]} = false.
Proof.
  assert (Hin : ∀ a, a ∈ Sample.annotated →
            a = Sample.annotatedA ∨ a = Sample.annotatedB ∨ a = Sample.annotatedC).
  { intros a Ha. unfold Sample.annotated in Ha.
    rewrite !elem_of_cons, elem_of_nil in Ha. tauto. }
  split; [|split; [apply areAllPreviousStepsComplete_false|
           split; [|apply areAllPreviousStepsComplete_false]]].
  - intros a k Ha Hk Hlt.
    destruct (Hin a Ha) as [-> | [-> | ->]]; simpl in Hk; simplify_eq;
      simpl in Hlt; discriminate.
  - intros a k Ha Hk Hlt.
    destruct (Hin a Ha) as [-> | [-> | ->]]; simpl in Hk; simplify_eq;
      simpl in Hlt; try discriminate.
    simpl. apply lookup_singleton_eq.
Qed.

End PreviousSteps.

(** ** The change of step in the store *)

Section StepStore.
Import Store.


End StepStore.

(** ** What a render hands to the steps *)

Section Render.
Import Checkout Notions.

Lemma numbered_take_pos steps i s :
  steps !! i = Some s → hasStepNumber s = true → 1 ≤ numbered (take (S i) steps).
Proof.
  revert i. induction steps as [|h rest IH]; intros i; [done|].
  destruct i as [|i]; simpl.
  - intros [= ->] ->. lia.
  - intros Hs Hnum. specialize (IH i Hs Hnum). simpl in IH. lia.
Qed.

(** On an annotated list, a step with a number has a [stepNumber] of at
    least 1, and a step without has [null]. *)
Lemma annotated_stepNumber steps annotated a :
  getAnnotatedSteps steps = JS.Ok annotated → a ∈ annotated →
  if hasStepNumber (step a)
  then ∃ k, stepNumber a = Some k ∧ 1 ≤ k
  else stepNumber a = None.
Proof.
  intros ->%getAnnotatedSteps_Ok [i Hi]%list_elem_of_lookup_1.
  apply annotate_from_lookup in Hi as (Hs & _ & Hn). rewrite Hn.
  destruct (hasStepNumber (step a)) eqn:Hnum; [|done].
  eexists; split; [done|]. simpl. by eapply numbered_take_pos.
Qed.

(** Every container of a render is [container] applied to a step of the
    annotated list, with the active step that the store's number picks. *)
Lemma Checkout_container steps pm s containers c :
  Checkout steps pm s = JS.Ok containers → c ∈ containers →
  ∃ annotated active a,
    getAnnotatedSteps steps = JS.Ok annotated
    ∧ activeStepOf annotated (Store.getStepNumber (Store.state (world s)))
      = JS.Ok active
    ∧ a ∈ annotated
    ∧ c = container annotated active pm s a.
Proof.
  unfold Checkout. intros H Hc.
  destruct (getAnnotatedSteps steps) as [annotated|] eqn:Hann; [|done].
  simpl in H.
  destruct (activeStepOf annotated _) as [active|] eqn:Hact; [|done].
  simpl in H. destruct (isLoading (formStatus s)); injection H as <-.
  { by apply elem_of_nil in Hc. }
  apply list_elem_of_fmap in Hc as (a & -> & Ha).
  by exists annotated, active, a.
Qed.

Lemma nextStepOf_elem_of annotated active next :
  nextStepOf annotated active = Some next →
  next ∈ annotated ∧ hasStepNumber (step next) = true.
Proof.
  unfold nextStepOf, find. intros (i & Hi & Hp & _)%find_from_Some.
  apply andb_true_iff in Hp as [_ Hnum].
  split; [by eapply list_elem_of_lookup_2|done].
Qed.

(** C4. A render shows the continue button on the container of the
    active step, and the completion check of that step hands back a
    promise.  The click sets the form status to validating and changes
    nothing else.  There is a next numbered step; when the promise is then
    fulfilled with [true], the completion map holds [true] for the active
    step's id, the store's step number is the number of that next step and
    the form status is ready; when it is fulfilled with [false], the
    completion map holds [false] for the id, the store and the window are
    as they were and the form status is ready. *)
Theorem deferred_completion_gate
    steps pm s containers c callback promise :
  Checkout steps pm s = JS.Ok containers →
  c ∈ containers →
  shouldShowNextButton c = true →
  isCompleteCallback (step (activeStep c)) = Some callback →
  callback pm = Deferred promise →
  ∃ annotated next k,
    getAnnotatedSteps steps = JS.Ok annotated
    ∧ nextStepOf annotated (activeStep c) = Some next
    ∧ stepNumber next = Some k
    ∧ onClick c s = JS.Ok (Waiting promise (setFormValidating s))
    ∧ formStatus (setFormValidating s) = validating
    ∧ world (setFormValidating s) = world s
    ∧ stepCompleteStatus (setFormValidating s) = stepCompleteStatus s
    ∧ ∀ t,
        (∃ t', fulfilled c (VBool true) t = JS.Ok t'
               ∧ stepCompleteStatus t' !! id (step (activeStep c)) = Some true
               ∧ Store.getStepNumber (Store.state (world t')) = JS.Int (Z.of_nat k)
               ∧ formStatus t' = ready)
        ∧ (∃ t', fulfilled c (VBool false) t = JS.Ok t'
                 ∧ stepCompleteStatus t' !! id (step (activeStep c)) = Some false
                 ∧ world t' = world t
                 ∧ formStatus t' = ready).
Proof.
  intros Hrender Hc Hbutton Hcb Hdeferred.
  destruct (Checkout_container _ _ _ _ _ Hrender Hc)
    as (annotated & active & a & Hann & Hact & Ha & ->).
  simpl in *.
  apply andb_true_iff in Hbutton as [Hbutton Hanother].
  apply andb_true_iff in Hbutton as [_ Hid%bool_decide_eq_true].
  destruct (nextStepOf annotated active) as [next|] eqn:Hnext; [|done].
  destruct (nextStepOf_elem_of _ _ _ Hnext) as [Hin Hnum].
  pose proof (annotated_stepNumber _ _ _ Hann Hin) as Hk.
  rewrite Hnum in Hk. destruct Hk as (k & Hk & _).
  exists annotated, next, k.
  split; [done|]. split; [done|]. split; [done|].
  split.
  { unfold onClick, isCompleteResult. simpl. by rewrite Hcb, Hdeferred. }
  split; [done|]. split; [done|]. split; [done|].
  intros t. split.
  - eexists. split.
    { unfold fulfilled, evaluateContinue, callGoToNextStep. simpl.
      rewrite Hnext. reflexivity. }
    simpl. split; [by rewrite Hid, lookup_insert_eq|].
    split; [by rewrite Hk|done].
  - eexists. split; [reflexivity|].
    simpl. split; [by rewrite Hid, lookup_insert_eq|done].
Qed.

(** C7, as the code has it.  In a render, the complete indicator of a
    step without number is always on, and the complete indicator of a
    step with a number is on exactly when that number is below the active
    step's number; the completion map plays no part in either. *)
Theorem complete_indicator steps pm s containers c :
  Checkout steps pm s = JS.Ok containers →
  c ∈ containers →
  if hasStepNumber (step (props_step c))
  then ∃ k, stepNumber (props_step c) = Some k
            ∧ (shownComplete (CheckoutStepContainer c) = true ↔
               ∃ n, stepNumber (activeStep c) = Some n ∧ k < n)
  else shownComplete (CheckoutStepContainer c) = true.
Proof.
  intros Hrender Hc.
  destruct (Checkout_container _ _ _ _ _ Hrender Hc)
    as (annotated & active & a & Hann & Hact & Ha & ->).
  pose proof (annotated_stepNumber _ _ _ Hann Ha) as Hk.
  simpl. unfold shouldShowStepCompleteIcon. simpl.
  destruct (hasStepNumber (step a)).
  - destruct Hk as (k & Hk & Hpos). exists k. split; [done|].
    rewrite Hk. unfold orNull. simpl.
    destruct (Z.of_nat k =? 0)%Z eqn:Hz; [apply Z.eqb_eq in Hz; lia|].
    simpl. unfold JS.gt. destruct (stepNumber active) as [n|]; simpl;
      rewrite Hz; simpl.
    + rewrite Z.ltb_lt. split.
      * intros Hlt. exists n. split; [done|lia].
      * intros (n' & [= <-] & Hlt). lia.
    + split.
      * intros Hlt%Z.ltb_lt. lia.
      * by intros (n' & ? & _).
  - by rewrite Hk.
Qed.

(** The indicator of a render does not change with the completion map. *)
Lemma complete_indicator_ignores_completion_map steps pm s status' :
  let s' := {| world := world s; formStatus := formStatus s;
               stepCompleteStatus := status' |} in
  match Checkout steps pm s, Checkout steps pm s' with
  | JS.Ok containers, JS.Ok containers' =>
      map (λ c, shownComplete (CheckoutStepContainer c)) containers
      = map (λ c, shownComplete (CheckoutStepContainer c)) containers'
  | JS.Throw e, JS.Throw e' => e = e'
  | _, _ => False
  end.
Proof.
  simpl. unfold Checkout.
  destruct (getAnnotatedSteps steps) as [annotated|]; simpl; [|done].
  destruct (activeStepOf annotated _) as [active|]; simpl; [|done].
  destruct (isLoading (formStatus s)); [done|].
  rewrite !map_map. apply map_ext. intros a. done.
Qed.

End Render.

Section RenderSamples.
Import Checkout.

(** C4, on a checkout whose first step is checked by a promise. *)
Lemma deferred_completion_gate_witness :
  ∃ annotated next k,
    getAnnotatedSteps Sample.gateSteps = JS.Ok annotated
    ∧ nextStepOf annotated (activeStep Sample.gateContainer) = Some next
    ∧ stepNumber next = Some k
    ∧ onClick Sample.gateContainer Sample.session
      = JS.Ok (Waiting 0 (setFormValidating Sample.session))
    ∧ formStatus (setFormValidating Sample.session) = validating
    ∧ world (setFormValidating Sample.session) = world Sample.session
    ∧ stepCompleteStatus (setFormValidating Sample.session)
      = stepCompleteStatus Sample.session
    ∧ ∀ t,
        (∃ t', fulfilled Sample.gateContainer (VBool true) t = JS.Ok t'
               ∧ stepCompleteStatus t' !! id (step (activeStep Sample.gateContainer))
                 = Some true
               ∧ Store.getStepNumber (Store.state (world t')) = JS.Int (Z.of_nat k)
               ∧ formStatus t' = ready)
        ∧ (∃ t', fulfilled Sample.gateContainer (VBool false) t = JS.Ok t'
                 ∧ stepCompleteStatus t' !! id (step (activeStep Sample.gateContainer))
                   = Some false
                 ∧ world t' = world t
                 ∧ formStatus t' = ready).
Proof.
  apply (deferred_completion_gate Sample.gateSteps None Sample.session
           (map (container Sample.gateAnnotated Sample.gateActive None Sample.session)
                Sample.gateAnnotated)
           Sample.gateContainer (λ _, Deferred 0) 0).
  - reflexivity.
  - simpl. constructor.
  - reflexivity.
  - reflexivity.
  - reflexivity.
Defined.

(** The run of that scenario: the click, then the promise fulfilled with
    [true], take the session to step 2. *)
Example deferred_completion_gate_run :
  onClick Sample.gateContainer Sample.session
  = JS.Ok (Waiting 0 (setFormValidating Sample.session))
  ∧ ∃ t', fulfilled Sample.gateContainer (VBool true)
            (setFormValidating Sample.session) = JS.Ok t'
          ∧ stepCompleteStatus t' = {[ "P" := true ]}
          ∧ Store.state (world t') = {| Store.stepNumber := JS.Int 2 |}
          ∧ Browser.href (Store.window (world t'))
            = "https://example.com/checkout#step2"
          ∧ formStatus t' = ready.
Proof.
  split; [reflexivity|]. eexists. split; [reflexivity|].
  repeat split; reflexivity.
Qed.

(** C7, on the sample render, for the step without number. *)
Lemma complete_indicator_witness :
  Checkout Sample.steps None Sample.session
  = JS.Ok (map (container Sample.annotated Sample.annotatedA None Sample.session)
               Sample.annotated)
  ∧ shownComplete (CheckoutStepContainer Sample.containerB) = true.
Proof.
  split; [reflexivity|].
  apply (complete_indicator Sample.steps None Sample.session
           (map (container Sample.annotated Sample.annotatedA None Sample.session)
                Sample.annotated)
           Sample.containerB).
  - reflexivity.
  - simpl. apply list_elem_of_further. constructor.
Defined.

(** C7 as the claim states it fails: the step without number of the
    sample render is shown complete although its tracked completion flag
    is [false]. *)
Lemma complete_indicator_counterexample :
  ¬ (∀ steps pm s containers c,
       Checkout steps pm s = JS.Ok containers →
       c ∈ containers →
       hasStepNumber (step (props_step c)) = false →
       shownComplete (CheckoutStepContainer c) = isComplete c).
Proof.
  intros H.
  specialize (H Sample.steps None Sample.session
                (map (container Sample.annotated Sample.annotatedA None Sample.session)
                     Sample.annotated)
                Sample.containerB eq_refl).
  assert (Hin : Sample.containerB
                ∈ map (container Sample.annotated Sample.annotatedA None Sample.session)
                      Sample.annotated).
  { simpl. apply list_elem_of_further. constructor. }
  specialize (H Hin eq_refl). vm_compute in H. discriminate.
Qed.

End RenderSamples.

(** ** Strings: cutting, splitting, printing and parsing *)

Section Strings.
Import JS Notions.

Lemma app_empty_r (s : string) : s +:+ "" = s.
Proof. induction s as [|c s IH]; [done|]. unfold String.app in *. simpl. by rewrite IH. Qed.

Lemma app_String c (s t : string) : String c s +:+ t = String c (s +:+ t).
Proof. reflexivity. Qed.

Lemma prefix_empty (s : string) : String.prefix "" s = true.
Proof. by destruct s. Qed.

Lemma prefix_app (p r : string) : String.prefix p (p +:+ r) = true.
Proof.
  induction p as [|c p IH]; [apply prefix_empty|].
  rewrite app_String. simpl. by destruct (ascii_dec c c).
Qed.

Lemma prefix_other h x c s : h ≠ c → String.prefix (String h x) (String c s) = false.
Proof. intros Hne. simpl. by destruct (ascii_dec h c). Qed.

Lemma drop_app (p r : string) : drop (String.length p) (p +:+ r) = r.
Proof. induction p as [|c p IH]; [by destruct r|]. by rewrite app_String. Qed.

Lemma cut_cons sep c s :
  cut sep (String c s) =
    if String.prefix sep (String c s)
    then Some ("", drop (String.length sep) (String c s))
    else match cut sep s with
         | Some (before, after) => Some (String c before, after)
         | None => None
         end.
Proof. reflexivity. Qed.

Lemma freeOf_cons h c s :
  freeOf h (String c s) = true ↔ h ≠ c ∧ freeOf h s = true.
Proof.
  simpl. rewrite andb_true_iff, negb_true_iff, bool_decide_eq_false. done.
Qed.

(** A separator does not occur in a string that is free of its first
    character. *)
Lemma cut_free h x s : freeOf h s = true → cut (String h x) s = None.
Proof.
  induction s as [|c s IH]; [done|].
  intros [Hne Hfree]%freeOf_cons.
  rewrite cut_cons, prefix_other by done. by rewrite IH.
Qed.

(** The first occurrence of a separator that follows a string free of
    its first character. *)
Lemma cut_app_free h x b r :
  freeOf h b = true → cut (String h x) (b +:+ String h x +:+ r) = Some (b, r).
Proof.
  induction b as [|c b IH].
  - intros _. change ("" +:+ String h x +:+ r) with (String h x +:+ r).
    rewrite app_String, cut_cons, <- app_String, prefix_app, drop_app. done.
  - intros [Hne Hfree]%freeOf_cons.
    rewrite app_String, cut_cons, prefix_other by done. by rewrite IH.
Qed.

(** Cutting at a single character. *)
Lemma cut_char_Some h s before after :
  cut (String h "") s = Some (before, after) →
  s = before +:+ String h after ∧ freeOf h before = true.
Proof.
  revert before. induction s as [|c s IH]; intros before; [done|].
  rewrite cut_cons. simpl.
  destruct (ascii_dec h c) as [->|Hne].
  - rewrite prefix_empty. by intros [= <- <-].
  - destruct (cut (String h "") s) as [[b a]|]; [|done].
    intros [= <- <-]. destruct (IH b eq_refl) as [-> Hfree].
    split; [done|]. by apply freeOf_cons.
Qed.

Lemma cut_char_None h s : cut (String h "") s = None → freeOf h s = true.
Proof.
  induction s as [|c s IH]; [done|].
  rewrite cut_cons. simpl.
  destruct (ascii_dec h c) as [->|Hne].
  - by rewrite prefix_empty.
  - destruct (cut (String h "") s) as [[b a]|]; [done|].
    intros _. apply freeOf_cons. auto.
Qed.

(** Each round of [split] takes one step of the defining equation of
    [String.prototype.split]; the rounds are never used up. *)
Lemma cut_shorter h x s before after :
  cut (String h x) s = Some (before, after) → String.length after < String.length s.
Proof.
  revert before. induction s as [|c s IH]; intros before; [done|].
  rewrite cut_cons.
  destruct (String.prefix (String h x) (String c s)) eqn:Hp.
  - intros [= <- <-]. simpl. clear. revert x. induction s as [|c' s IH]; intros x.
    + destruct x; simpl; lia.
    + destruct x as [|c'' x]; simpl; [lia|]. specialize (IH x). lia.
  - destruct (cut (String h x) s) as [[b a]|]; [|done].
    intros [= <- <-]. specialize (IH b eq_refl). simpl. lia.
Qed.

Lemma split_rounds_irrelevant h x rounds rounds' s :
  String.length s ≤ rounds → String.length s ≤ rounds' →
  split_rounds rounds s (String h x) = split_rounds rounds' s (String h x).
Proof.
  revert rounds' s. induction rounds as [|rounds IH]; intros rounds' s Hlen Hlen'.
  - destruct s; [|simpl in Hlen; lia]. by destruct rounds'.
  - destruct rounds' as [|rounds'].
    { destruct s; [done|simpl in Hlen'; lia]. }
    simpl. destruct (cut (String h x) s) as [[b a]|] eqn:Hcut; [|done].
    f_equal. apply cut_shorter in Hcut. apply IH; lia.
Qed.

Lemma split_rounds_enough h x rounds s :
  String.length s ≤ rounds →
  split_rounds rounds s (String h x) =
    match cut (String h x) s with
    | Some (before, after) => before :: split after (String h x)
    | None => [s]
    end.
Proof.
  intros Hlen. destruct rounds as [|rounds].
  - destruct s; [done|simpl in Hlen; lia].
  - simpl. destruct (cut (String h x) s) as [[b a]|] eqn:Hcut; [|done].
    f_equal. apply cut_shorter in Hcut. unfold split.
    apply split_rounds_irrelevant; lia.
Qed.

Lemma split_unfold h x s :
  split s (String h x) =
    match cut (String h x) s with
    | Some (before, after) => before :: split after (String h x)
    | None => [s]
    end.
Proof. unfold split at 1. by apply split_rounds_enough. Qed.

End Strings.

Section Digits.
Import JS Notions.

Lemma small_cases (d : N) :
  (d < 10)%N →
  (d = 0 ∨ d = 1 ∨ d = 2 ∨ d = 3 ∨ d = 4 ∨ d = 5 ∨ d = 6 ∨ d = 7 ∨ d = 8 ∨ d = 9)%N.
Proof. lia. Qed.

Lemma is_nat_pretty_N_char (d : N) :
  (d < 10)%N → Ascii.is_nat (pretty_N_char d) = Some (N.to_nat d).
Proof. intros H%small_cases. destruct_or!; subst; reflexivity. Qed.

Lemma pretty_N_char_not_hash (d : N) : "#"%char ≠ pretty_N_char d.
Proof. unfold pretty_N_char. by repeat case_match. Qed.

(** Reading back what [pretty_N_go] has put in front of [s]. *)
Lemma parse_digits_pretty_N_go (x : N) (s : string) :
  ∃ k, ∀ acc,
    parse_digits acc (pretty_N_go x s) = parse_digits (acc * k + Z.of_N x) s.
Proof.
  revert s. induction (N.lt_wf_0 x) as [x _ IH]; intros s.
  destruct (decide (x = 0)%N) as [->|Hpos].
  { exists 1%Z. intros acc. rewrite pretty_N_go_0. f_equal. lia. }
  rewrite pretty_N_go_step by lia.
  destruct (IH (x `div` 10)%N (N.div_lt x 10 ltac:(lia) ltac:(lia))
              (String (pretty_N_char (x `mod` 10)) s)) as [k Hk].
  exists (10 * k)%Z. intros acc. rewrite Hk. simpl.
  rewrite is_nat_pretty_N_char by (apply N.mod_lt; lia).
  f_equal. rewrite N_nat_Z.
  pose proof (N.div_mod x 10 ltac:(lia)) as Hx. lia.
Qed.

Lemma pretty_N_go_first (x : N) (s : string) :
  (0 < x)%N →
  ∃ d rest, (d < 10)%N ∧ pretty_N_go x s = String (pretty_N_char d) rest.
Proof.
  revert s. induction (N.lt_wf_0 x) as [x _ IH]; intros s Hpos.
  rewrite pretty_N_go_step by done.
  destruct (decide (x `div` 10 = 0)%N) as [->|Hdiv].
  - rewrite pretty_N_go_0. exists (x `mod` 10)%N, s.
    split; [apply N.mod_lt; lia|done].
  - apply IH; [apply N.div_lt; lia|by apply N.neq_0_lt_0].
Qed.

Lemma freeOf_pretty_N_go (x : N) (s : string) :
  freeOf "#" s = true → freeOf "#" (pretty_N_go x s) = true.
Proof.
  revert s. induction (N.lt_wf_0 x) as [x _ IH]; intros s Hs.
  destruct (decide (x = 0)%N) as [->|Hpos]; [by rewrite pretty_N_go_0|].
  rewrite pretty_N_go_step by lia.
  apply IH; [apply N.div_lt; lia|].
  apply freeOf_cons. split; [apply pretty_N_char_not_hash|done].
Qed.

(** A string that starts with a digit is read as its digits. *)
Lemma parseInt_digit_first (d : N) (rest : string) :
  (d < 10)%N →
  parseInt (String (pretty_N_char d) rest)
  = Int (parse_digits 0 (String (pretty_N_char d) rest)).
Proof.
  intros H%small_cases. destruct_or!; subst; unfold parseInt; simpl;
    by rewrite Z.mul_1_l.
Qed.

Lemma pretty_pos (n : Z) :
  (1 ≤ n)%Z → pretty n = pretty_N_go (Z.to_N n) "".
Proof.
  intros Hn. destruct n as [|p|p]; [lia| |lia]. reflexivity.
Qed.

(** [parseInt( String( n ), 10 )] is [n] for a positive integer [n]. *)
Lemma parseInt_toString (n : Z) :
  (1 ≤ n)%Z → parseInt (toString (Int n)) = Int n.
Proof.
  intros Hn. simpl. rewrite pretty_pos by done.
  destruct (pretty_N_go_first (Z.to_N n) "" ltac:(lia)) as (d & rest & Hd & Heq).
  destruct (parse_digits_pretty_N_go (Z.to_N n) "") as [k Hk].
  rewrite Heq, parseInt_digit_first by done.
  rewrite <- Heq, Hk. simpl. f_equal. lia.
Qed.

Lemma freeOf_toString (n : Z) :
  (1 ≤ n)%Z → freeOf "#" (toString (Int n)) = true.
Proof.
  intros Hn. simpl. rewrite pretty_pos by done. by apply freeOf_pretty_N_go.
Qed.

End Digits.

(** ** The step number in the URL *)

Section UrlSync.
Import JS Browser Url Notions.

(** The three shapes of an address: no [#], a [#] that nothing follows,
    a [#] with a fragment. *)
Lemma href_cases (w : Window) :
  (freeOf "#" (href w) = true ∧ hash w = "" ∧ endsWithBareHash w = false)
  ∨ (hash w = "" ∧ endsWithBareHash w = true)
  ∨ (∃ b fragment,
       freeOf "#" b = true ∧ href w = b +:+ String "#" fragment
       ∧ hash w = String "#" fragment ∧ endsWithBareHash w = false).
Proof.
  unfold hash, endsWithBareHash.
  destruct (cut "#" (href w)) as [[b fragment]|] eqn:Hcut.
  - destruct (cut_char_Some _ _ _ _ Hcut) as [Hhref Hfree].
    destruct fragment as [|c fragment]; [by right; left|].
    right; right. exists b, (String c fragment). by destruct (decide _).
  - left. by apply cut_char_None in Hcut.
Qed.

Lemma hash_free (w : Window) : freeOf "#" (href w) = true → hash w = "".
Proof. intros H. unfold hash. by rewrite (cut_free _ "" _ H). Qed.

Lemma hash_fragment (w : Window) b c fragment :
  freeOf "#" b = true → href w = b +:+ String "#" (String c fragment) →
  hash w = String "#" (String c fragment).
Proof.
  intros Hfree Hhref. unfold hash. rewrite Hhref.
  change (b +:+ String "#" (String c fragment))
    with (b +:+ "#" +:+ String c fragment).
  rewrite (cut_app_free "#" "" b (String c fragment) Hfree).
  by destruct (decide _).
Qed.

(** What [saveStepNumberToUrl] does: nothing without [pushState] or when
    the fragment is already the one wanted, one [pushState] otherwise. *)
Lemma saveStepNumberToUrl_unfold n w :
  saveStepNumberToUrl n w =
    if pushStateAvailable w && negb (bool_decide (hash w = fragmentFor n))
    then pushState
           (if nonempty (hash w) then replace (href w) (hash w) (fragmentFor n)
            else href w +:+ fragmentFor n) w
    else w.
Proof.
  unfold saveStepNumberToUrl, fragmentFor.
  destruct (pushStateAvailable w); simpl; [|done].
  destruct (decide _) as [Heq|Hne].
  - by rewrite bool_decide_eq_true_2.
  - by rewrite bool_decide_eq_false_2.
Qed.

(** The address that is pushed: the old one with its fragment replaced,
    unless the old one ends with a bare [#]. *)
Lemma pushed_address n w :
  (hash w = "" → endsWithBareHash w = false) →
  ∃ b, freeOf "#" b = true
       ∧ (if nonempty (hash w) then replace (href w) (hash w) (fragmentFor n)
          else href w +:+ fragmentFor n) = b +:+ fragmentFor n.
Proof.
  intros Hbare.
  destruct (href_cases w) as [(Hfree & Hhash & _)|[[Hhash Hb]|
    (b & fragment & Hfree & Hhref & Hhash & _)]].
  - exists (href w). by rewrite Hhash.
  - rewrite (Hbare Hhash) in Hb. discriminate.
  - exists b. rewrite Hhash. simpl. split; [done|].
    unfold replace. rewrite Hhref.
    rewrite <- (app_empty_r (String "#" fragment)) at 2.
    rewrite (cut_app_free "#" fragment b "" Hfree).
    by rewrite app_empty_r.
Qed.

Lemma getStepNumberFromUrl_no_fragment w :
  hash w = "" → getStepNumberFromUrl w = Int 1.
Proof. intros H. unfold getStepNumberFromUrl. by rewrite H. Qed.

Lemma getStepNumberFromUrl_step_fragment w digits :
  hash w = "#step" +:+ digits → freeOf "#" digits = true →
  getStepNumberFromUrl w = parseInt digits.
Proof.
  intros Hhash Hfree. unfold getStepNumberFromUrl, startsWith.
  rewrite Hhash, prefix_app.
  rewrite split_unfold.
  change ("#step" +:+ digits) with ("" +:+ "#step" +:+ digits).
  rewrite (cut_app_free "#" "step" "" digits eq_refl).
  rewrite split_unfold, cut_free by done. reflexivity.
Qed.

Lemma fragmentFor_Int (n : Z) :
  fragmentFor (Int n) = if (1 <? n)%Z then "#step" +:+ toString (Int n) else "".
Proof. reflexivity. Qed.

(** A window whose fragment stands for step [n] reads as step [n]. *)
Lemma getStepNumberFromUrl_fragmentFor (n : Z) w :
  (1 ≤ n)%Z → hash w = fragmentFor (Int n) → getStepNumberFromUrl w = Int n.
Proof.
  intros Hn. rewrite fragmentFor_Int. destruct (1 <? n)%Z eqn:Hlt; intros Hhash.
  - rewrite (getStepNumberFromUrl_step_fragment _ _ Hhash)
      by (by apply freeOf_toString).
    by apply parseInt_toString.
  - apply Z.ltb_ge in Hlt. replace n with 1%Z by lia.
    by apply getStepNumberFromUrl_no_fragment.
Qed.

(** C6, as the code has it.  For an integer [n ≥ 1] that is not above
    [Number.MAX_SAFE_INTEGER], in a browser that has [pushState] and, when
    [n > 1], on an address that does not end with a bare [#]: after
    [saveStepNumberToUrl( n )] the fragment is [#step<n>] for [n > 1] and
    empty for [n = 1], and [getStepNumberFromUrl()] returns [n]. *)
Theorem save_then_get_step_number (n : Z) (w : Window) :
  (1 ≤ n ≤ MAX_SAFE_INTEGER)%Z →
  pushStateAvailable w = true →
  ((1 < n)%Z → endsWithBareHash w = false) →
  hash (saveStepNumberToUrl (Int n) w) = fragmentFor (Int n)
  ∧ getStepNumberFromUrl (saveStepNumberToUrl (Int n) w) = Int n.
Proof.
  intros [Hn _] Hpush Hbare.
  assert (Hhash : hash (saveStepNumberToUrl (Int n) w) = fragmentFor (Int n));
    [|split; [done|by apply getStepNumberFromUrl_fragmentFor]].
  rewrite saveStepNumberToUrl_unfold, Hpush. simpl.
  destruct (bool_decide (hash w = fragmentFor (Int n))) eqn:Hsame; simpl.
  { by apply bool_decide_eq_true in Hsame. }
  apply bool_decide_eq_false in Hsame.
  destruct (pushed_address (Int n) w) as (b & Hfree & ->).
  { intros Hempty. apply Hbare. rewrite fragmentFor_Int in Hsame.
    destruct (1 <? n)%Z eqn:Hlt; [by apply Z.ltb_lt|congruence]. }
  rewrite fragmentFor_Int. destruct (1 <? n)%Z.
  - by apply (hash_fragment _ b "s" ("tep" +:+ toString (Int n))).
  - apply hash_free. simpl. by rewrite app_empty_r.
Qed.

(** C10. Without [pushState], [saveStepNumberToUrl( n )] leaves the
    window as it is: address, fragment and history. *)
Theorem saveStepNumberToUrl_without_pushState (n : numeric) (w : Window) :
  pushStateAvailable w = false →
  saveStepNumberToUrl n w = w.
Proof. intros H. unfold saveStepNumberToUrl. by rewrite H. Qed.

End UrlSync.

Section UrlSamples.
Import JS Browser Url Notions.

(** C6, on the sample window, for step 2. *)
Lemma save_then_get_step_number_witness :
  hash (saveStepNumberToUrl (Int 2) Sample.window) = fragmentFor (Int 2)
  ∧ getStepNumberFromUrl (saveStepNumberToUrl (Int 2) Sample.window) = Int 2.
Proof.
  apply (save_then_get_step_number 2 Sample.window).
  - unfold MAX_SAFE_INTEGER. lia.
  - reflexivity.
  - intros _. reflexivity.
Defined.

Example save_then_get_sample :
  href (saveStepNumberToUrl (Int 2) Sample.window)
  = "https://example.com/checkout#step2"
  ∧ getStepNumberFromUrl (saveStepNumberToUrl (Int 2) Sample.window) = Int 2
  ∧ href (saveStepNumberToUrl (Int 1) (saveStepNumberToUrl (Int 2) Sample.window))
    = "https://example.com/checkout".
Proof. repeat split; by vm_compute. Qed.

(** C6 as the claim states it fails: without [pushState] nothing is
    written, and on an address at [#step3] saving step 1 and reading back
    gives 3. *)
Lemma save_then_get_step_number_counterexample :
  ¬ (∀ (n : Z) (w : Window),
       (1 ≤ n)%Z → getStepNumberFromUrl (saveStepNumberToUrl (Int n) w) = Int n).
Proof.
  intros H. specialize (H 1%Z Sample.oldWindow ltac:(lia)).
  vm_compute in H. discriminate.
Qed.

(** On an address that ends with a bare [#] the new fragment is appended
    after that [#]: the fragment reads [##step2] and the step is read
    as 1. *)
Example save_on_bare_hash :
  href (saveStepNumberToUrl (Int 2) Sample.bareHashWindow)
  = "https://example.com/checkout##step2"
  ∧ hash (saveStepNumberToUrl (Int 2) Sample.bareHashWindow) = "##step2"
  ∧ getStepNumberFromUrl (saveStepNumberToUrl (Int 2) Sample.bareHashWindow) = Int 1.
Proof. repeat split; by vm_compute. Qed.

(** C8 as the claim states it fails: saving step 2 on the sample window
    adds an entry to the history. *)
Lemma saveStepNumberToUrl_counterexample :
  ¬ (∀ (n : numeric) (w : Window),
       back (saveStepNumberToUrl n w) = back w
       ∧ historyLength (saveStepNumberToUrl n w) = historyLength w).
Proof.
  intros H. destruct (H (Int 2) Sample.window) as [Hback _].
  vm_compute in Hback. discriminate.
Qed.

Example saveStepNumberToUrl_history :
  back (saveStepNumberToUrl (Int 2) Sample.window) = ["https://example.com/checkout"]
  ∧ historyLength Sample.window = 1
  ∧ historyLength (saveStepNumberToUrl (Int 2) Sample.window) = 2.
Proof. repeat split; by vm_compute. Qed.

(** C10, on the sample browser without [pushState]. *)
Lemma saveStepNumberToUrl_without_pushState_witness :
  pushStateAvailable Sample.oldWindow = false
  ∧ saveStepNumberToUrl (Int 2) Sample.oldWindow = Sample.oldWindow.
Proof.
  split; [reflexivity|].
  apply (saveStepNumberToUrl_without_pushState (Int 2) Sample.oldWindow).
  reflexivity.
Defined.

End UrlSamples.

(** ** The coupon form *)

Section CouponForm.
Import Coupon.

(** [isCouponValid] accepts the strings that are not empty and made of
    characters of the class only: the matches of [^[a-zA-Z0-9_-]+$]. *)
Lemma isCouponValid_spec (coupon : string) :
  isCouponValid coupon = true ↔ coupon ≠ "" ∧ allInClass coupon = true.
Proof.
  unfold isCouponValid. rewrite andb_true_iff.
  destruct coupon as [|c coupon]; simpl.
  - split; intros [H _]; [discriminate|done].
  - split; intros [_ H]; by split.
Qed.

(** [handleFormSubmit] itself, called with every callback bound: it emits
    one event, [a8c_checkout_add_coupon] with the coupon and a call of
    [submitCoupon] for a valid value, [a8c_checkout_add_coupon_error] and
    no call of [submitCoupon] otherwise. *)
Lemma handleFormSubmit_emits_one_event (value : string) (withCouponAdded : bool) :
  let effects :=
    handleFormSubmit value
      (λ b, [SetHasCouponError b])
      (if withCouponAdded then Some [CouponAdded] else None)
      (λ b, [SetIsCouponApplied b])
      (λ e, [Emitted e])
      (λ c, [SubmitCoupon c]) in
  if isCouponValid value
  then events effects
       = [ {| type := "a8c_checkout_add_coupon"; payload_of := OfCoupon value |} ]
       ∧ submitted effects = [value]
  else events effects
       = [ {| type := "a8c_checkout_add_coupon_error";
              payload_of := OfError "Invalid code" |} ]
       ∧ submitted effects = [].
Proof.
  unfold handleFormSubmit. simpl.
  destruct (isCouponValid value); [|done].
  by destruct withCouponAdded.
Qed.

(** The handlers of the form never get as far as their calls: both read
    [setHasCouponError], which is declared nowhere. *)
Lemma onSubmit_scope (value : string) :
  onSubmit (scope value) = JS.Throw (JS.ReferenceError "setHasCouponError").
Proof. reflexivity. Qed.

Lemma onChange_scope (value input : string) :
  onChange (scope value) input = JS.Throw (JS.ReferenceError "setHasCouponError").
Proof. reflexivity. Qed.

(** C9. The code against the claim: whenever [Coupon] renders the form,
    submitting it, with whatever value in the field, throws a
    [ReferenceError] before [handleFormSubmit] is entered, so that no
    event is emitted and [submitCoupon] is not called, where the claim has
    exactly one event; this is so for the empty field and for the valid
    coupon [SAVE10]. *)
Theorem coupon_submission_throws :
  (∀ couponStatus value,
     match Coupon couponStatus value with
     | Some sc => onSubmit sc = JS.Throw (JS.ReferenceError "setHasCouponError")
     | None => couponStatus = "applied"
     end)
  ∧ isCouponValid "" = false
  ∧ onSubmit (scope "") = JS.Throw (JS.ReferenceError "setHasCouponError")
  ∧ isCouponValid "SAVE10" = true
  ∧ onSubmit (scope "SAVE10") = JS.Throw (JS.ReferenceError "setHasCouponError").
Proof.
  split; [|by repeat split].
  intros couponStatus value. unfold Coupon.
  destruct (bool_decide _) eqn:Hstatus; [|apply onSubmit_scope].
  by apply bool_decide_eq_true in Hstatus.
Qed.

End CouponForm.

(** * Further properties *)

(** ** The numbers along an annotated list *)

Section Numbering.
Import Checkout Notions.

Lemma numbered_app l1 l2 : numbered (l1 ++ l2) = numbered l1 + numbered l2.
Proof. induction l1 as [|s l1 IH]; simpl; [done|]. rewrite IH. lia. Qed.

Lemma numbered_take_S steps k s :
  steps !! k = Some s →
  numbered (take (S k) steps)
  = numbered (take k steps) + (if hasStepNumber s then 1 else 0).
Proof.
  intros Hk. rewrite (take_S_r _ _ _ Hk), numbered_app. simpl. lia.
Qed.

Lemma numbered_take_mono steps i j :
  i ≤ j → numbered (take i steps) ≤ numbered (take j steps).
Proof.
  revert i j. induction steps as [|s rest IH]; intros i j Hij.
  - by rewrite !take_nil.
  - destruct i as [|i]; simpl; [lia|].
    destruct j as [|j]; [lia|]. simpl. specialize (IH i j ltac:(lia)). lia.
Qed.

Lemma numbered_take_le steps i : numbered (take i steps) ≤ numbered steps.
Proof.
  rewrite <- (take_ge steps (i `max` length steps)) at 2 by lia.
  apply numbered_take_mono. lia.
Qed.

(** Between two positions with no numbered step in between, the count
    does not move. *)
Lemma numbered_take_skip steps i d :
  (∀ k s, i ≤ k < i + d → steps !! k = Some s → hasStepNumber s = false) →
  numbered (take (i + d) steps) = numbered (take i steps).
Proof.
  induction d as [|d IH]; intros Hskip; [by rewrite Nat.add_0_r|].
  replace (i + S d) with (S (i + d)) by lia.
  destruct (steps !! (i + d)) as [s|] eqn:Hs.
  - rewrite (numbered_take_S _ _ _ Hs), (Hskip (i + d) s) by (done || lia).
    rewrite IH; [lia|]. intros k s' Hk. apply Hskip. lia.
  - apply lookup_ge_None in Hs. rewrite !take_ge by lia.
    rewrite <- (take_ge steps (i + d)) at 1 by lia.
    apply IH. intros k s' Hk. apply Hskip. lia.
Qed.

(** The annotated step at a position, from the step at that position. *)
Lemma annotated_lookup steps annotated i a :
  getAnnotatedSteps steps = JS.Ok annotated →
  annotated !! i = Some a →
  steps !! i = Some (step a)
  ∧ stepIndex a = i
  ∧ stepNumber a =
      if hasStepNumber (step a) then Some (numbered (take (S i) steps)) else None.
Proof.
  intros ->%getAnnotatedSteps_Ok H.
  apply annotate_from_lookup in H as (Hs & Hi & Hn). by rewrite Hn.
Qed.

Lemma annotated_numbers steps annotated :
  getAnnotatedSteps steps = JS.Ok annotated →
  omap stepNumber annotated = seq 1 (numbered steps).
Proof. intros ->%getAnnotatedSteps_Ok. apply annotate_from_numbers. Qed.

(** The numbers grow strictly from one numbered step to a later one. *)
Lemma annotated_numbers_increase steps annotated i j a b ka kb :
  getAnnotatedSteps steps = JS.Ok annotated →
  annotated !! i = Some a → annotated !! j = Some b →
  stepNumber a = Some ka → stepNumber b = Some kb →
  i < j → ka < kb.
Proof.
  intros Hann Hi Hj Ha Hb Hij.
  destruct (annotated_lookup _ _ _ _ Hann Hi) as (_ & _ & Hna).
  destruct (annotated_lookup _ _ _ _ Hann Hj) as (Hsj & _ & Hnb).
  rewrite Ha in Hna. rewrite Hb in Hnb.
  destruct (hasStepNumber (step a)); [|done].
  destruct (hasStepNumber (step b)) eqn:Hnum; [|done].
  injection Hna as ->. injection Hnb as ->.
  rewrite (numbered_take_S _ _ _ Hsj), Hnum.
  pose proof (numbered_take_mono steps (S i) j ltac:(lia)). lia.
Qed.

(** Every number handed out lies between 1 and the count of the numbered
    steps, and every number in that range is handed out. *)
Lemma annotated_number_range steps annotated k :
  getAnnotatedSteps steps = JS.Ok annotated →
  (∃ a, a ∈ annotated ∧ stepNumber a = Some k) ↔ 1 ≤ k ≤ numbered steps.
Proof.
  intros Hann. rewrite <- list_elem_of_omap, (annotated_numbers _ _ Hann).
  rewrite elem_of_seq. lia.
Qed.

(** Looking a numbered step up by its own number finds that step. *)
Lemma activeStepOf_stepNumber steps annotated a k :
  getAnnotatedSteps steps = JS.Ok annotated →
  a ∈ annotated → stepNumber a = Some k →
  activeStepOf annotated (JS.Int (Z.of_nat k)) = JS.Ok a.
Proof.
  intros Hann [i Hi]%list_elem_of_lookup_1 Hk.
  unfold activeStepOf, find.
  assert (find_from
            (λ a0 _, JS.strict_eq (num (stepNumber a0)) (JS.Int (Z.of_nat k)))
            0 annotated = Some a) as ->; [|done].
  apply find_from_Some. exists i. split; [done|]. split.
  { rewrite Hk. simpl. apply Z.eqb_refl. }
  intros j y Hji Hy. destruct (stepNumber y) as [ky|] eqn:Hky; [|done].
  simpl. apply Z.eqb_neq.
  pose proof (annotated_numbers_increase _ _ _ _ _ _ _ _ Hann Hy Hi Hky Hk Hji).
  lia.
Qed.

Lemma activeStepOf_Ok annotated n a :
  activeStepOf annotated n = JS.Ok a →
  a ∈ annotated ∧ JS.strict_eq (num (stepNumber a)) n = true.
Proof.
  unfold activeStepOf, find.
  destruct (find_from _ 0 annotated) as [x|] eqn:Hfind; [|done].
  intros [= ->]. apply find_from_Some in Hfind as (i & Hi & Hp & _).
  split; [by eapply list_elem_of_lookup_2|done].
Qed.

Lemma activeStepOf_Int annotated (n : Z) a :
  activeStepOf annotated (JS.Int n) = JS.Ok a →
  a ∈ annotated ∧ ∃ k, stepNumber a = Some k ∧ Z.of_nat k = n.
Proof.
  intros [Hin Heq]%activeStepOf_Ok. split; [done|].
  destruct (stepNumber a) as [k|]; [|done].
  exists k. split; [done|]. by apply Z.eqb_eq.
Qed.

End Numbering.

(** ** The active step and the step after it *)

Section ActiveStep.
Import Checkout Notions.

Lemma annotated_of_step steps annotated k s :
  getAnnotatedSteps steps = JS.Ok annotated →
  steps !! k = Some s → ∃ y, annotated !! k = Some y ∧ step y = s.
Proof.
  intros ->%getAnnotatedSteps_Ok Hs.
  rewrite <- (annotate_from_steps 0 0 steps) in Hs.
  change (map step (annotate_from 0 0 steps))
    with (step <$> annotate_from 0 0 steps) in Hs.
  apply list_lookup_fmap_Some in Hs as (y & Hy & ->). by exists y.
Qed.

Lemma annotated_numbered steps annotated a k :
  getAnnotatedSteps steps = JS.Ok annotated →
  a ∈ annotated → stepNumber a = Some k → hasStepNumber (step a) = true.
Proof.
  intros Hann Ha Hk. pose proof (annotated_stepNumber _ _ _ Hann Ha) as H.
  destruct (hasStepNumber (step a)); [done|congruence].
Qed.

Lemma activeStepOf_NaN annotated :
  activeStepOf annotated JS.NaN = JS.Throw (JS.Error "The active step was lost").
Proof.
  unfold activeStepOf, find.
  assert (find_from (λ a _, JS.strict_eq (num (stepNumber a)) JS.NaN) 0 annotated
          = None) as ->; [|done].
  apply find_from_None. intros i y _. by destruct (stepNumber y).
Qed.

(** The lookup of the active step by an integer, in full. *)
Lemma activeStepOf_in_range steps annotated (n : Z) :
  getAnnotatedSteps steps = JS.Ok annotated →
  match activeStepOf annotated (JS.Int n) with
  | JS.Ok a =>
      (1 ≤ n ≤ Z.of_nat (numbered steps))%Z
      ∧ a ∈ annotated
      ∧ stepNumber a = Some (Z.to_nat n)
      ∧ ∀ b, b ∈ annotated → stepNumber b = stepNumber a → b = a
  | JS.Throw e =>
      e = JS.Error "The active step was lost"
      ∧ ¬ (1 ≤ n ≤ Z.of_nat (numbered steps))%Z
  end.
Proof.
  intros Hann.
  destruct (activeStepOf annotated (JS.Int n)) as [a|e] eqn:Hact.
  - destruct (activeStepOf_Int _ _ _ Hact) as (Ha & k & Hk & <-).
    rewrite Nat2Z.id.
    assert (1 ≤ k ≤ numbered steps) as Hrange
      by (apply (annotated_number_range _ _ _ Hann); eauto).
    split; [lia|]. split; [done|]. split; [done|].
    intros b [j Hj]%list_elem_of_lookup_1 Hb. rewrite Hk in Hb.
    destruct (list_elem_of_lookup_1 _ _ Ha) as [i Hi].
    destruct (Nat.lt_trichotomy i j) as [Hlt|[->|Hgt]].
    + pose proof (annotated_numbers_increase _ _ _ _ _ _ _ _
                    Hann Hi Hj Hk Hb Hlt). lia.
    + congruence.
    + pose proof (annotated_numbers_increase _ _ _ _ _ _ _ _
                    Hann Hj Hi Hb Hk Hgt). lia.
  - split.
    { unfold activeStepOf in Hact. destruct (find _ _); congruence. }
    intros Hrange.
    destruct (annotated_number_range steps annotated (Z.to_nat n) Hann)
      as [_ Hex].
    destruct (Hex ltac:(lia)) as (a & Ha & Hk).
    pose proof (activeStepOf_stepNumber _ _ _ _ Hann Ha Hk) as Hok.
    rewrite Z2Nat.id in Hok by lia. congruence.
Qed.

(** The step after the active step, in full. *)
Lemma nextStepOf_follows steps annotated (n : Z) active :
  getAnnotatedSteps steps = JS.Ok annotated →
  activeStepOf annotated (JS.Int n) = JS.Ok active →
  match nextStepOf annotated active with
  | Some next =>
      stepNumber next = Some (Z.to_nat n + 1)
      ∧ (n < Z.of_nat (numbered steps))%Z
      ∧ isThereAnotherNumberedStep (Some next) = true
  | None => n = Z.of_nat (numbered steps)
  end.
Proof.
  intros Hann Hact.
  destruct (activeStepOf_Int _ _ _ Hact) as (Ha & k & Hk & <-).
  rewrite Nat2Z.id.
  destruct (list_elem_of_lookup_1 _ _ Ha) as [i Hi].
  destruct (annotated_lookup _ _ _ _ Hann Hi) as (Hsi & Hidx & Hna).
  pose proof (annotated_numbered _ _ _ _ Hann Ha Hk) as Hnum.
  rewrite Hnum, Hk in Hna. injection Hna as ->.
  assert (numbered (take (S i) steps) ≤ numbered steps) as Hle
    by apply numbered_take_le.
  destruct (nextStepOf annotated active) as [next|] eqn:Hnext.
  - unfold nextStepOf, find in Hnext.
    apply find_from_Some in Hnext as (j & Hj & Hp & Hfirst). simpl in *.
    apply andb_true_iff in Hp as [Hij%Nat.ltb_lt Hnumj]. rewrite Hidx in Hij.
    destruct (annotated_lookup _ _ _ _ Hann Hj) as (Hsj & _ & Hnj).
    rewrite Hnumj in Hnj.
    assert (numbered (take j steps) = numbered (take (S i) steps)) as Hskip.
    { replace j with (S i + (j - S i)) by lia. apply numbered_take_skip.
      intros k s Hk' Hs.
      destruct (annotated_of_step _ _ _ _ Hann Hs) as (y & Hy & <-).
      specialize (Hfirst k y ltac:(lia) Hy).
      apply andb_false_iff in Hfirst as [Hge%Nat.ltb_ge|]; [lia|done]. }
    rewrite (numbered_take_S _ _ _ Hsj), Hnumj, Hskip in Hnj.
    split; [by rewrite Hnj|].
    assert (1 ≤ numbered (take (S i) steps) + 1 ≤ numbered steps) as Hrange.
    { apply (annotated_number_range _ _ _ Hann). exists next.
      split; [by eapply list_elem_of_lookup_2|done]. }
    split; [lia|done].
  - f_equal.
    destruct (decide (numbered (take (S i) steps) = numbered steps)) as [|Hne];
      [done|exfalso].
    destruct (annotated_number_range steps annotated
                (numbered (take (S i) steps) + 1) Hann) as [_ Hex].
    destruct (Hex ltac:(lia)) as (b & [j Hj]%list_elem_of_lookup_1 & Hb).
    unfold nextStepOf, find in Hnext.
    rewrite find_from_None in Hnext.
    pose proof (Hnext j b Hj) as Hp. simpl in Hp.
    apply andb_false_iff in Hp as [Hge%Nat.ltb_ge|Hno].
    + rewrite Hidx in Hge.
      destruct (decide (j = i)) as [->|Hji]; [rewrite Hi in Hj; simplify_eq; lia|].
      assert (j < i) as Hlt by lia.
      pose proof (annotated_numbers_increase _ _ _ _ _ _ _ _
                    Hann Hj Hi Hb Hk Hlt). lia.
    + assert (hasStepNumber (step b) = true) as Hyes.
      { eapply annotated_numbered; [done| |done]. by eapply list_elem_of_lookup_2. }
      congruence.
Qed.

(** X1. On an annotated list, looking the active step up by an integer
    [n] succeeds exactly when [n] lies between 1 and the count of the
    numbered steps; the step found is then the only step of the list that
    carries the number [n]; otherwise the lookup throws "The active step
    was lost". *)
Theorem activeStep_resolves_in_range steps annotated (n : Z) :
  getAnnotatedSteps steps = JS.Ok annotated →
  match activeStepOf annotated (JS.Int n) with
  | JS.Ok a =>
      (1 ≤ n ≤ Z.of_nat (numbered steps))%Z
      ∧ a ∈ annotated
      ∧ stepNumber a = Some (Z.to_nat n)
      ∧ ∀ b, b ∈ annotated → stepNumber b = stepNumber a → b = a
  | JS.Throw e =>
      e = JS.Error "The active step was lost"
      ∧ ¬ (1 ≤ n ≤ Z.of_nat (numbered steps))%Z
  end.
Proof. apply activeStepOf_in_range. Qed.

(** X2. With the active step looked up by [n], a next step exists
    exactly when [n] is below the count of the numbered steps, and its
    number is then [n + 1]; when there is none, [n] is that count. *)
Theorem nextStep_number_follows steps annotated (n : Z) active :
  getAnnotatedSteps steps = JS.Ok annotated →
  activeStepOf annotated (JS.Int n) = JS.Ok active →
  match nextStepOf annotated active with
  | Some next =>
      stepNumber next = Some (Z.to_nat n + 1)
      ∧ (n < Z.of_nat (numbered steps))%Z
      ∧ isThereAnotherNumberedStep (Some next) = true
  | None => n = Z.of_nat (numbered steps)
  end.
Proof. apply nextStepOf_follows. Qed.

End ActiveStep.

(** ** The outcome of a render *)

Section RenderOutcome.
Import Checkout Notions.

Lemma getAnnotatedSteps_cons s rest :
  getAnnotatedSteps (s :: rest) = JS.Ok (annotate_from 0 0 (s :: rest)).
Proof. unfold getAnnotatedSteps. by rewrite annotate_from_length. Qed.

(** X3. A render with the integer [n] in the store throws "No steps
    found" for an empty list of steps and "The active step was lost" when
    [n] is not the number of a step; otherwise it succeeds, with no
    container while the form is loading and with one container per step,
    in order, once it is not. *)
Theorem Checkout_outcome steps pm s (n : Z) :
  Store.getStepNumber (Store.state (world s)) = JS.Int n →
  match Checkout steps pm s with
  | JS.Ok containers =>
      steps ≠ []
      ∧ (1 ≤ n ≤ Z.of_nat (numbered steps))%Z
      ∧ if isLoading (formStatus s) then containers = []
        else map (λ c, step (props_step c)) containers = steps
             ∧ ∀ c, c ∈ containers →
                    stepNumber (activeStep c) = Some (Z.to_nat n)
  | JS.Throw e =>
      (steps = [] ∧ e = JS.Error "No steps found")
      ∨ (steps ≠ [] ∧ ¬ (1 ≤ n ≤ Z.of_nat (numbered steps))%Z
         ∧ e = JS.Error "The active step was lost")
  end.
Proof.
  intros Hstore. unfold Checkout. rewrite Hstore.
  destruct steps as [|s0 rest]; [by left|].
  pose proof (getAnnotatedSteps_cons s0 rest) as Hann.
  remember (s0 :: rest) as steps eqn:Hsteps.
  remember (annotate_from 0 0 steps) as annotated eqn:Hannotated.
  rewrite Hann. unfold JS.bind at 1.
  pose proof (activeStepOf_in_range steps annotated n Hann) as Hact.
  destruct (activeStepOf annotated (JS.Int n)) as [a|e]; unfold JS.bind.
  - destruct Hact as (Hrange & Ha & Hk & _).
    destruct (isLoading (formStatus s)).
    { split; [by subst|]. by split. }
    split; [by subst|]. split; [done|]. split.
    + rewrite map_map. simpl. subst annotated. apply annotate_from_steps.
    + intros c (y & -> & _)%list_elem_of_fmap. done.
  - destruct Hact as [-> Hrange]. right. by subst.
Qed.

(** X4. In a render, a click on a continue button that is shown has
    a step to go to: whatever the session has become, [onClick] returns
    for every value without [then] and for every promise that the
    completion check hands back; it throws, a [TypeError], only for a
    value whose [then] is truthy but cannot be called. *)
Theorem continue_click_never_throws steps pm s containers c :
  Checkout steps pm s = JS.Ok containers →
  c ∈ containers →
  shouldShowNextButton c = true →
  ∀ t,
    match isCompleteResult c with
    | NotCallable =>
        onClick c t
        = JS.Throw (JS.TypeError "isCompleteResult.then is not a function")
    | _ => ∃ r, onClick c t = JS.Ok r
    end.
Proof.
  intros Hrender Hc Hbutton t.
  destruct (Checkout_container _ _ _ _ _ Hrender Hc)
    as (annotated & active & a & Hann & Hact & Ha & ->).
  simpl in Hbutton. apply andb_true_iff in Hbutton as [_ Hanother].
  destruct (nextStepOf annotated active) as [next|] eqn:Hnext; [|done].
  unfold onClick.
  destruct (isCompleteResult _) as [v|promise|]; [|by eexists|done].
  unfold evaluateContinue, callGoToNextStep. simpl. rewrite Hnext.
  destruct v as [[|]| |]; by eexists.
Qed.

(** X5. A continue button is never shown next to a submit button that
    can be used: when a container of a render shows the continue button,
    the submit button of that render is disabled. *)
Theorem continue_excludes_submit steps pm s containers c :
  Checkout steps pm s = JS.Ok containers →
  c ∈ containers →
  shouldShowNextButton c = true →
  CheckoutSubmitButton steps s = JS.Ok (Some true).
Proof.
  intros Hrender Hc Hbutton.
  unfold Checkout in Hrender. unfold CheckoutSubmitButton.
  destruct (getAnnotatedSteps steps) as [annotated|]; [|done]. simpl in *.
  destruct (activeStepOf annotated _) as [active|]; [|done]. simpl in *.
  destruct (isLoading (formStatus s)).
  { injection Hrender as <-. by apply elem_of_nil in Hc. }
  injection Hrender as <-.
  apply list_elem_of_fmap in Hc as (a & -> & _). simpl in Hbutton.
  apply andb_true_iff in Hbutton as [_ ->]. done.
Qed.

(** X6. With the integer [n] in the store, the submit button of a
    render that succeeds is enabled exactly when the form is ready and [n]
    is the number of the last numbered step; it is absent exactly while
    the form is loading; and the render of the button throws what the
    render of the steps throws. *)
Theorem submit_enabled_on_last_step steps pm s (n : Z) :
  Store.getStepNumber (Store.state (world s)) = JS.Int n →
  match CheckoutSubmitButton steps s with
  | JS.Ok (Some disabled) =>
      formStatus s ≠ loading
      ∧ (disabled = false ↔
         formStatus s = ready ∧ n = Z.of_nat (numbered steps))
  | JS.Ok None => formStatus s = loading
  | JS.Throw e => Checkout steps pm s = JS.Throw e
  end.
Proof.
  intros Hstore. unfold CheckoutSubmitButton, Checkout. rewrite Hstore.
  destruct (getAnnotatedSteps steps) as [annotated|] eqn:Hann; [|done].
  simpl JS.bind.
  destruct (activeStepOf annotated (JS.Int n)) as [active|] eqn:Hact; [|done].
  simpl JS.bind.
  pose proof (nextStepOf_follows _ _ _ _ Hann Hact) as Hnext.
  destruct (formStatus s) eqn:Hstatus; simpl; [done| |].
  - split; [done|]. unfold SubmitButtonWrapper. simpl. rewrite orb_false_r.
    destruct (nextStepOf annotated active) as [next|].
    + destruct Hnext as (_ & Hlt & ->). split; [done|]. intros [_ ->]. lia.
    + simpl. by split.
  - split; [done|]. unfold SubmitButtonWrapper. simpl. rewrite orb_true_r.
    split; [done|]. by intros [? _].
Qed.

End RenderOutcome.

(** ** Continue and edit *)

Section ContinueAndEdit.
Import Checkout Notions.

(** What the shown continue button of a render with [n] in the store
    knows: the container is the active step's, and the step to go to
    carries [n + 1]. *)
Lemma continue_button steps pm s containers c (n : Z) :
  Checkout steps pm s = JS.Ok containers →
  c ∈ containers →
  shouldShowNextButton c = true →
  Store.getStepNumber (Store.state (world s)) = JS.Int n →
  ∃ annotated next,
    getAnnotatedSteps steps = JS.Ok annotated
    ∧ activeStepOf annotated (JS.Int n) = JS.Ok (activeStep c)
    ∧ activePaymentMethod c = pm
    ∧ id (step (props_step c)) = id (step (activeStep c))
    ∧ goToNextStep c = Some next
    ∧ next ∈ annotated
    ∧ stepNumber next = Some (Z.to_nat n + 1)
    ∧ (1 ≤ n)%Z.
Proof.
  intros Hrender Hc Hbutton Hstore.
  destruct (Checkout_container _ _ _ _ _ Hrender Hc)
    as (annotated & active & a & Hann & Hact & Ha & ->).
  rewrite Hstore in Hact. simpl in *.
  apply andb_true_iff in Hbutton as [Hbutton Hanother].
  apply andb_true_iff in Hbutton as [_ Hid%bool_decide_eq_true].
  pose proof (nextStepOf_follows _ _ _ _ Hann Hact) as Hfollows.
  destruct (nextStepOf annotated active) as [next|] eqn:Hnext; [|done].
  destruct Hfollows as (Hk & _ & _).
  destruct (nextStepOf_elem_of _ _ _ Hnext) as [Hin _].
  pose proof (activeStepOf_in_range _ _ n Hann) as Hrange.
  rewrite Hact in Hrange. destruct Hrange as (Hrange & _).
  exists annotated, next. repeat split; try done. lia.
Qed.

(** X7. A render with [n] in the store shows the continue button, and
    the active step has no completion check, or one that hands back
    [true], [null] or [undefined].  The click then records the step as
    complete, leaves the form ready and takes the store from [n] to
    [n + 1], a number at which the next render finds its active step. *)
Theorem continue_advances_by_one steps pm s containers c (n : Z) :
  Checkout steps pm s = JS.Ok containers →
  c ∈ containers →
  shouldShowNextButton c = true →
  Store.getStepNumber (Store.state (world s)) = JS.Int n →
  match isCompleteCallback (step (activeStep c)) with
  | None => True
  | Some callback =>
      callback pm = Plain (VBool true) ∨ callback pm = Plain VNullish
  end →
  ∃ s' annotated next,
    onClick c s = JS.Ok (Decided s')
    ∧ stepCompleteStatus s' !! id (step (activeStep c)) = Some true
    ∧ formStatus s' = ready
    ∧ Store.getStepNumber (Store.state (world s')) = JS.Int (n + 1)
    ∧ getAnnotatedSteps steps = JS.Ok annotated
    ∧ activeStepOf annotated (Store.getStepNumber (Store.state (world s')))
      = JS.Ok next.
Proof.
  intros Hrender Hc Hbutton Hstore Hcheck.
  destruct (continue_button _ _ _ _ _ _ Hrender Hc Hbutton Hstore)
    as (annotated & next & Hann & Hact & Hpm & Hid & Hgo & Hin & Hk & Hn).
  assert (isCompleteResult c = Plain (VBool true)) as Hresult.
  { unfold isCompleteResult. rewrite Hpm.
    destruct (isCompleteCallback (step (activeStep c))) as [callback|]; [|done].
    by destruct Hcheck as [-> | ->]. }
  eexists _, annotated, next. split.
  { unfold onClick. rewrite Hresult. unfold evaluateContinue, callGoToNextStep.
    rewrite Hgo. reflexivity. }
  simpl. rewrite Hk. simpl.
  replace (Z.of_nat (Z.to_nat n + 1)) with (n + 1)%Z by lia.
  split; [by rewrite Hid, lookup_insert_eq|]. split; [done|].
  split; [done|]. split; [done|].
  pose proof (activeStepOf_stepNumber _ _ _ _ Hann Hin Hk) as Hnext.
  by replace (Z.of_nat (Z.to_nat n + 1)) with (n + 1)%Z in Hnext by lia.
Qed.

(** X8. In the same render, when the completion check hands back
    [false], or another value without a truthy [then] that is neither
    [true] nor [null] or [undefined], the click records the step as not
    complete, leaves the form ready and changes neither the store nor the
    window, and notifies nobody. *)
Theorem continue_withheld steps pm s containers c callback :
  Checkout steps pm s = JS.Ok containers →
  c ∈ containers →
  shouldShowNextButton c = true →
  isCompleteCallback (step (activeStep c)) = Some callback →
  callback pm = Plain (VBool false) ∨ callback pm = Plain VOther →
  ∃ s',
    onClick c s = JS.Ok (Decided s')
    ∧ stepCompleteStatus s' !! id (step (activeStep c)) = Some false
    ∧ formStatus s' = ready
    ∧ world s' = world s.
Proof.
  intros Hrender Hc Hbutton Hcb Hcheck.
  destruct (Checkout_container _ _ _ _ _ Hrender Hc)
    as (annotated & active & a & Hann & Hact & Ha & ->).
  simpl in *.
  apply andb_true_iff in Hbutton as [Hbutton _].
  apply andb_true_iff in Hbutton as [_ Hid%bool_decide_eq_true].
  eexists. split.
  { unfold onClick, isCompleteResult. simpl. rewrite Hcb.
    destruct Hcheck as [-> | ->]; reflexivity. }
  simpl. split; [by rewrite Hid, lookup_insert_eq|done].
Qed.

(** X9. In a render, a step that offers to be edited is a numbered step
    other than the active one, offered while the form is ready; editing it
    puts its own number into the store, and at that number the next render
    finds exactly that step as its active step. *)
Theorem edit_returns_to_the_step steps pm s containers c target :
  Checkout steps pm s = JS.Ok containers →
  c ∈ containers →
  onEdit c = Some target →
  formStatus s = ready
  ∧ hasStepNumber (step (props_step c)) = true
  ∧ id (step (props_step c)) ≠ id (step (activeStep c))
  ∧ Store.getStepNumber (Store.state (world (changeStep target s))) = target
  ∧ ∃ annotated,
      getAnnotatedSteps steps = JS.Ok annotated
      ∧ activeStepOf annotated
          (Store.getStepNumber (Store.state (world (changeStep target s))))
        = JS.Ok (props_step c).
Proof.
  intros Hrender Hc Hedit.
  destruct (Checkout_container _ _ _ _ _ Hrender Hc)
    as (annotated & active & a & Hann & Hact & Ha & ->).
  simpl in *.
  destruct (isReady (formStatus s)) eqn:Hready; [|done]. simpl in Hedit.
  destruct (bool_decide (id (step a) = id (step active))) eqn:Hid; [done|].
  apply bool_decide_eq_false in Hid. simpl in Hedit.
  destruct (hasStepNumber (step a)) eqn:Hnum; [|done]. simpl in Hedit.
  destruct (default false (isEditableCallback (step a))); [|done].
  injection Hedit as <-.
  split; [by destruct (formStatus s)|]. split; [done|]. split; [done|].
  split; [done|]. exists annotated. split; [done|].
  pose proof (annotated_stepNumber _ _ _ Hann Ha) as Hk. rewrite Hnum in Hk.
  destruct Hk as (k & Hk & _). rewrite Hk. simpl.
  by apply (activeStepOf_stepNumber steps).
Qed.

End ContinueAndEdit.

(** ** More on the step number in the URL *)

Section UrlMore.
Import JS Browser Url Notions.

Lemma string_app_assoc (s t u : string) : (s +:+ t) +:+ u = s +:+ t +:+ u.
Proof.
  induction s as [|c s IH]; [done|]. rewrite !app_String. by rewrite IH.
Qed.

Lemma fragmentFor_cases (n : numeric) :
  (gt n (Int 1) = false ∧ fragmentFor n = "")
  ∨ (∃ z, n = Int z ∧ (1 < z)%Z ∧ gt n (Int 1) = true
          ∧ fragmentFor n = "#step" +:+ toString (Int z)).
Proof.
  unfold fragmentFor. destruct (gt n (Int 1)) eqn:Hgt; [|by left].
  right. destruct n as [z| |]; try done.
  exists z. repeat split. by apply Z.ltb_lt.
Qed.

(** After a save in a browser with [pushState], the fragment is the one
    that stands for the number saved, unless the number is above 1 and
    the address ended with a bare [#]. *)
Lemma hash_after_save (n : numeric) (w : Window) :
  pushStateAvailable w = true →
  (gt n (Int 1) = true → endsWithBareHash w = false) →
  hash (saveStepNumberToUrl n w) = fragmentFor n.
Proof.
  intros Hpush Hbare.
  rewrite saveStepNumberToUrl_unfold, Hpush. simpl.
  destruct (bool_decide (hash w = fragmentFor n)) eqn:Hsame; simpl.
  { by apply bool_decide_eq_true in Hsame. }
  apply bool_decide_eq_false in Hsame.
  destruct (pushed_address n w) as (b & Hfree & ->).
  { intros Hempty. apply Hbare.
    destruct (fragmentFor_cases n) as [[_ Hf]|(z & _ & _ & Hgt & _)];
      [congruence|done]. }
  destruct (fragmentFor_cases n) as [[_ ->]|(z & _ & _ & _ & ->)].
  - apply hash_free. simpl. by rewrite app_empty_r.
  - by apply (hash_fragment _ b "s" ("tep" +:+ toString (Int z))).
Qed.

Lemma pushStateAvailable_save n w :
  pushStateAvailable (saveStepNumberToUrl n w) = pushStateAvailable w.
Proof.
  rewrite saveStepNumberToUrl_unfold.
  by destruct (pushStateAvailable w && negb (bool_decide (hash w = fragmentFor n))).
Qed.

Lemma save_same_fragment n w :
  hash w = fragmentFor n → saveStepNumberToUrl n w = w.
Proof.
  intros H. rewrite saveStepNumberToUrl_unfold, bool_decide_eq_true_2 by done.
  by rewrite andb_false_r.
Qed.

(** X10. Saving a number that is not above 1 (an integer up to 1,
    [NaN] or [null]) in a browser with [pushState] clears the fragment,
    so that the step read back is 1, whatever was saved. *)
Theorem save_not_above_one_reads_one (n : numeric) (w : Window) :
  gt n (Int 1) = false →
  pushStateAvailable w = true →
  hash (saveStepNumberToUrl n w) = ""
  ∧ getStepNumberFromUrl (saveStepNumberToUrl n w) = Int 1.
Proof.
  intros Hgt Hpush.
  assert (hash (saveStepNumberToUrl n w) = "") as Hhash.
  { rewrite hash_after_save by (done || congruence).
    unfold fragmentFor. by rewrite Hgt. }
  split; [done|]. by apply getStepNumberFromUrl_no_fragment.
Qed.


(** The address up to its first [#] is the same after a save. *)
Lemma addressBase_save (n : numeric) (w : Window) :
  addressBase (saveStepNumberToUrl n w) = addressBase w.
Proof.
  rewrite saveStepNumberToUrl_unfold.
  destruct (pushStateAvailable w && negb (bool_decide (hash w = fragmentFor n)));
    [|done].
  unfold addressBase, hash. simpl.
  assert (∀ b, freeOf "#" b = true →
            match cut "#" (b +:+ fragmentFor n) with
            | Some (before, _) => before
            | None => b +:+ fragmentFor n
            end = b) as Hnew.
  { intros b Hfree.
    destruct (fragmentFor_cases n) as [[_ ->]|(z & _ & _ & _ & ->)].
    - rewrite app_empty_r. by rewrite (cut_free "#" "" b Hfree).
    - change (b +:+ "#step" +:+ toString (Int z))
        with (b +:+ "#" +:+ ("step" +:+ toString (Int z))).
      by rewrite (cut_app_free "#" "" b _ Hfree). }
  destruct (cut "#" (href w)) as [[b fragment]|] eqn:Hcut.
  - destruct (cut_char_Some _ _ _ _ Hcut) as [Hhref Hfree].
    destruct (decide (fragment = "")) as [->|Hne]; simpl.
    + rewrite Hhref.
      change (b +:+ String "#" "") with (b +:+ "#" +:+ "").
      rewrite app_empty_r.
      change ((b +:+ "#") +:+ fragmentFor n)
        with ((b +:+ "#") +:+ fragmentFor n).
      rewrite string_app_assoc.
      by rewrite (cut_app_free "#" "" b (fragmentFor n) Hfree).
    + assert (replace (href w) ("#" +:+ fragment) (fragmentFor n)
              = b +:+ fragmentFor n) as Hreplaced.
      { unfold replace. rewrite Hhref.
        change ("#" +:+ fragment) with (String "#" fragment).
        replace (b +:+ String "#" fragment)
          with (b +:+ String "#" fragment +:+ "") by (by rewrite app_empty_r).
        rewrite (cut_app_free "#" fragment b "" Hfree).
        by rewrite app_empty_r. }
      change (nonempty ("#" +:+ fragment)) with true. cbv iota.
      rewrite Hreplaced. by apply Hnew.
  - simpl. apply Hnew. by apply cut_char_None.
Qed.

(** X12. [saveStepNumberToUrl] only ever touches the fragment: the
    address up to its first [#] is the same after the call, for every
    number and every window. *)
Theorem save_keeps_address_base (n : numeric) (w : Window) :
  addressBase (saveStepNumberToUrl n w) = addressBase w.
Proof. apply addressBase_save. Qed.

End UrlMore.

Section LenientReading.
Import JS Browser Url Notions.

Lemma cut_app_free_l h x d r :
  freeOf h d = true →
  cut (String h x) (d +:+ r) =
    match cut (String h x) r with
    | Some (before, after) => Some (d +:+ before, after)
    | None => None
    end.
Proof.
  induction d as [|c d IH].
  - intros _. change ("" +:+ r) with r.
    by destruct (cut (String h x) r) as [[b a]|].
  - intros [Hne Hfree]%freeOf_cons.
    rewrite app_String, cut_cons, prefix_other, IH by done.
    by destruct (cut (String h x) r) as [[b a]|].
Qed.

Lemma cut_head h x r before after :
  cut (String h x) r = Some (before, after) →
  startsNonDigit r = true → startsNonDigit before = true.
Proof.
  destruct r as [|c r]; [done|]. rewrite cut_cons.
  destruct (String.prefix _ _); [by intros [= <- <-]|].
  destruct (cut (String h x) r) as [[b a]|]; [|done].
  by intros [= <- <-].
Qed.

Lemma pretty_N_go_app (x : N) (s t : string) :
  pretty_N_go x s +:+ t = pretty_N_go x (s +:+ t).
Proof.
  revert s. induction (N.lt_wf_0 x) as [x _ IH]; intros s.
  destruct (decide (x = 0)%N) as [->|Hpos]; [by rewrite !pretty_N_go_0|].
  rewrite (pretty_N_go_step x s), (pretty_N_go_step x (s +:+ t)) by lia.
  rewrite IH by (apply N.div_lt; lia). done.
Qed.

Lemma parse_digits_stop acc r :
  startsNonDigit r = true → parse_digits acc r = acc.
Proof.
  destruct r as [|c r]; [done|]. unfold startsNonDigit. simpl.
  rewrite negb_true_iff, bool_decide_eq_false.
  destruct (Ascii.is_nat c); [|done]. intros []. by eexists.
Qed.

(** The digits of a positive integer, followed by something that does
    not go on with a digit, are read as that integer. *)
Lemma parseInt_toString_then (n : Z) (r : string) :
  (1 ≤ n)%Z → startsNonDigit r = true →
  parseInt (toString (Int n) +:+ r) = Int n.
Proof.
  intros Hn Hr. simpl. rewrite pretty_pos by done.
  rewrite pretty_N_go_app. change ("" +:+ r) with r.
  destruct (pretty_N_go_first (Z.to_N n) r ltac:(lia)) as (d & rest & Hd & Heq).
  destruct (parse_digits_pretty_N_go (Z.to_N n) r) as [k Hk].
  rewrite Heq, parseInt_digit_first by done.
  rewrite <- Heq, Hk, parse_digits_stop by done. f_equal. lia.
Qed.

(** X13. The step is read leniently: a fragment that is [#step], the
    digits of an integer [n] from 1 to [Number.MAX_SAFE_INTEGER] and then
    anything that does not go on with a digit (letters, a second
    [#step...]) reads as step [n]. *)
Theorem getStepNumberFromUrl_ignores_what_follows (n : Z) (rest : string) w :
  (1 ≤ n ≤ MAX_SAFE_INTEGER)%Z →
  startsNonDigit rest = true →
  hash w = "#step" +:+ toString (Int n) +:+ rest →
  getStepNumberFromUrl w = Int n.
Proof.
  intros [Hn _] Hrest Hhash. unfold getStepNumberFromUrl, startsWith.
  rewrite Hhash, prefix_app, split_unfold.
  change ("#step" +:+ toString (Int n) +:+ rest)
    with ("" +:+ "#step" +:+ (toString (Int n) +:+ rest)).
  rewrite (cut_app_free "#" "step" "" _ eq_refl).
  rewrite split_unfold, cut_app_free_l by (by apply freeOf_toString).
  destruct (cut "#step" rest) as [[b a]|] eqn:Hcut.
  - change (default "" (("" :: (toString (Int n) +:+ b) :: split a "#step") !! 1))
      with (toString (Int n) +:+ b).
    change (1 <? length ("" :: (toString (Int n) +:+ b) :: split a "#step"))
      with true. cbv iota.
    apply parseInt_toString_then; [done|]. by eapply cut_head.
  - change (1 <? length ["" ; toString (Int n) +:+ rest]) with true. cbv iota.
    by apply parseInt_toString_then.
Qed.

End LenientReading.

(** ** Synchronising the store with the URL *)

Section Synchronisation.
Import JS Browser Notions.

Lemma store_after_changeStep (n : numeric) (s : Checkout.Session) :
  Store.getStepNumber (Store.state (Checkout.world (Checkout.changeStep n s))) = n
  ∧ Store.window (Checkout.world (Checkout.changeStep n s))
    = Url.saveStepNumberToUrl n (Store.window (Checkout.world s))
  ∧ Checkout.formStatus (Checkout.changeStep n s) = Checkout.formStatus s
  ∧ Checkout.stepCompleteStatus (Checkout.changeStep n s)
    = Checkout.stepCompleteStatus s.
Proof. done. Qed.

Lemma onHashChange_subscribed (s : Checkout.Session) :
  Checkout.onHashChange true s
  = Checkout.changeStep
      (Url.getStepNumberFromUrl (Store.window (Checkout.world s))) s.
Proof. done. Qed.

(** X14. [areAllPreviousStepsComplete] returns [false] for every list
    of steps, every target and every completion map. *)
Theorem areAllPreviousStepsComplete_never_true
    (steps : list Checkout.AnnotatedStep) (n : numeric) (status : gmap string bool) :
  Checkout.areAllPreviousStepsComplete steps n status = false.
Proof. apply areAllPreviousStepsComplete_false. Qed.

(** X15. The first synchronisation never restores the step of the
    URL: whatever the fragment and the completion map, it leaves 1 in the
    store, and in a browser with [pushState] it leaves the address without
    fragment; form status and completion map are untouched. *)
Theorem initialSync_resets_to_first_step
    (steps : list Checkout.AnnotatedStep) (s : Checkout.Session) :
  let s' := Checkout.initialSync steps s in
  Store.getStepNumber (Store.state (Checkout.world s')) = Int 1
  ∧ (if pushStateAvailable (Store.window (Checkout.world s))
     then hash (Store.window (Checkout.world s')) = ""
     else Store.window (Checkout.world s') = Store.window (Checkout.world s))
  ∧ Checkout.formStatus s' = Checkout.formStatus s
  ∧ Checkout.stepCompleteStatus s' = Checkout.stepCompleteStatus s.
Proof.
  intros s'. subst s'. rewrite initialSync_goes_to_first_step.
  destruct (store_after_changeStep (Int 1) s) as (-> & -> & -> & ->).
  split; [done|]. split; [|done].
  destruct (pushStateAvailable (Store.window (Checkout.world s))) eqn:Hpush.
  - by rewrite hash_after_save.
  - unfold Url.saveStepNumberToUrl. by rewrite Hpush.
Qed.


(** X17. A [hashchange] is not guarded: when the fragment reads as
    [NaN], or as an integer that is not the number of a step, that value
    goes into the store and the next render of a checkout with steps
    throws "The active step was lost". *)
Theorem hashchange_can_lose_the_active_step
    (steps : list Checkout.Step) pm (s : Checkout.Session) :
  steps ≠ [] →
  match Url.getStepNumberFromUrl (Store.window (Checkout.world s)) with
  | Int n => ¬ (1 ≤ n ≤ Z.of_nat (numbered steps))%Z
  | NaN => True
  | Null => False
  end →
  Checkout.Checkout steps pm (Checkout.onHashChange true s)
  = JS.Throw (JS.Error "The active step was lost").
Proof.
  intros Hsteps Hurl. rewrite onHashChange_subscribed. unfold Checkout.Checkout.
  destruct (store_after_changeStep
              (Url.getStepNumberFromUrl (Store.window (Checkout.world s))) s)
    as (-> & _).
  destruct steps as [|s0 rest]; [done|].
  pose proof (getAnnotatedSteps_cons s0 rest) as Hann.
  remember (s0 :: rest) as l. remember (Checkout.annotate_from 0 0 l) as annotated.
  rewrite Hann. unfold JS.bind at 1.
  destruct (Url.getStepNumberFromUrl _) as [n| |]; [| |done].
  - pose proof (activeStepOf_in_range l annotated n Hann) as Hact.
    destruct (Checkout.activeStepOf annotated (Int n)) as [a|e]; simpl.
    + by destruct Hact as [? _].
    + by destruct Hact as [-> _].
  - by rewrite activeStepOf_NaN.
Qed.

(** X18. Changing to the same step twice in a row notifies twice and
    commits twice, but writes the URL at most once: the second dispatch
    leaves the window as the first one made it. *)
Theorem changeStep_twice_writes_once (n : numeric) (w : Store.World) :
  (gt n (Int 1) = true → endsWithBareHash (Store.window w) = false) →
  let w1 := Store.dispatch (Store.changeStep n) w in
  let w2 := Store.dispatch (Store.changeStep n) w1 in
  Store.window w2 = Store.window w1
  ∧ Store.state w2 = Store.state w1
  ∧ Store.trace w2 =
      Store.trace w1 ++
        [ Store.Notified
            {| Store.type := "STEP_NUMBER_CHANGE_EVENT"; Store.payload := n |};
          Store.UrlSaved n;
          Store.Committed {| Store.type := "STEP_NUMBER_SET"; Store.payload := n |} ].
Proof.
  intros Hbare. simpl. split; [|split; [done|]].
  - destruct (pushStateAvailable (Store.window w)) eqn:Hpush.
    + apply save_same_fragment. by apply hash_after_save.
    + unfold Url.saveStepNumberToUrl at 2. rewrite Hpush. simpl.
      unfold Url.saveStepNumberToUrl. by rewrite Hpush.
  - by rewrite <- !app_assoc.
Qed.

End Synchronisation.

(** ** The field of the coupon form *)

Section CouponField.
Import Coupon Notions.

Lemma fieldInput_unfold st input :
  fieldInput st input =
    if JS.nonempty input
    then {| fieldValue := input; applyButtonActive := true |}
    else {| fieldValue := fieldValue st; applyButtonActive := false |}.
Proof. by destruct input. Qed.

(** X19. [handleFieldInput] with its setters bound keeps the last
    input that was not empty: after any sequence of changes of the field,
    the stored value is the last non-empty input (the value from before
    when there was none), so that emptying the field does not empty the
    stored value; the apply button is active exactly when the last input
    was not empty. *)
Theorem fieldInput_keeps_last_non_empty (inputs : list string) (st : FormState) :
  let st' := fold_left fieldInput inputs st in
  fieldValue st' = lastNonEmpty (fieldValue st) inputs
  ∧ applyButtonActive st' =
      match last inputs with
      | Some input => JS.nonempty input
      | None => applyButtonActive st
      end.
Proof.
  simpl. revert st. induction inputs as [|input inputs IH]; intros st; [done|].
  simpl. destruct (IH (fieldInput st input)) as [-> ->].
  rewrite fieldInput_unfold. unfold lastNonEmpty. simpl.
  destruct (JS.nonempty input) eqn:Hinput; simpl.
  - split; [done|]. destruct inputs as [|i inputs]; simpl; [done|].
    destruct (last (i :: inputs)) eqn:Hlast; [done|].
    by apply last_None in Hlast.
  - split; [done|]. destruct inputs as [|i inputs]; simpl; [done|].
    destruct (last (i :: inputs)) eqn:Hlast; [done|].
    by apply last_None in Hlast.
Qed.

(** X20. Whenever [Coupon] renders the form, a change of the field,
    whatever the input, throws a [ReferenceError] before
    [handleFieldInput] is entered, so that the stored value of the field
    is never set. *)
Theorem coupon_field_change_throws (couponStatus value input : string) :
  match Coupon couponStatus value with
  | Some sc => onChange sc input = JS.Throw (JS.ReferenceError "setHasCouponError")
  | None => couponStatus = "applied"
  end.
Proof.
  unfold Coupon. destruct (bool_decide _) eqn:Hstatus; [|apply onChange_scope].
  by apply bool_decide_eq_true in Hstatus.
Qed.

(** X21. [handleFormSubmit], called with every callback bound: it
    prevents the default submission first and emits exactly one event;
    for a value that [isCouponValid] accepts, the event is
    [a8c_checkout_add_coupon] with the value, emitted before the one call
    of [submitCoupon] with the value; otherwise the event is
    [a8c_checkout_add_coupon_error], the error flag is set and
    [submitCoupon] is not called. *)
Theorem handleFormSubmit_order (value : string) (withCouponAdded : bool) :
  handleFormSubmit value
    (λ b, [SetHasCouponError b])
    (if withCouponAdded then Some [CouponAdded] else None)
    (λ b, [SetIsCouponApplied b])
    (λ e, [Emitted e])
    (λ c, [SubmitCoupon c])
  = if isCouponValid value
    then [ PreventDefault; SetIsCouponApplied true;
           Emitted {| type := "a8c_checkout_add_coupon";
                      payload_of := OfCoupon value |};
           SubmitCoupon value ]
         ++ (if withCouponAdded then [CouponAdded] else [])
    else [ PreventDefault;
           Emitted {| type := "a8c_checkout_add_coupon_error";
                      payload_of := OfError "Invalid code" |};
           SetHasCouponError true ].
Proof.
  unfold handleFormSubmit. destruct (isCouponValid value); [|done].
  by destruct withCouponAdded.
Qed.

End CouponField.

(** ** The further properties on the samples *)

Section FurtherSamples.
Import Checkout Notions.

(** X1, on the sample: step 2 is found. *)
Lemma activeStep_resolves_in_range_witness :
  getAnnotatedSteps Sample.steps = JS.Ok Sample.annotated
  ∧ match activeStepOf Sample.annotated (JS.Int 2) with
    | JS.Ok a =>
        (1 ≤ 2 ≤ Z.of_nat (numbered Sample.steps))%Z
        ∧ a ∈ Sample.annotated
        ∧ stepNumber a = Some (Z.to_nat 2)
        ∧ ∀ b, b ∈ Sample.annotated → stepNumber b = stepNumber a → b = a
    | JS.Throw e =>
        e = JS.Error "The active step was lost"
        ∧ ¬ (1 ≤ 2 ≤ Z.of_nat (numbered Sample.steps))%Z
    end.
Proof.
  split; [reflexivity|].
  apply (activeStep_resolves_in_range Sample.steps Sample.annotated 2).
  reflexivity.
Defined.

(** X2, on the sample: after step 1 comes step 2. *)
Lemma nextStep_number_follows_witness :
  getAnnotatedSteps Sample.steps = JS.Ok Sample.annotated
  ∧ activeStepOf Sample.annotated (JS.Int 1) = JS.Ok Sample.annotatedA
  ∧ match nextStepOf Sample.annotated Sample.annotatedA with
    | Some next =>
        stepNumber next = Some (Z.to_nat 1 + 1)
        ∧ (1 < Z.of_nat (numbered Sample.steps))%Z
        ∧ isThereAnotherNumberedStep (Some next) = true
    | None => 1%Z = Z.of_nat (numbered Sample.steps)
    end.
Proof.
  split; [reflexivity|]. split; [reflexivity|].
  apply (nextStep_number_follows Sample.steps Sample.annotated 1 Sample.annotatedA);
    reflexivity.
Defined.

(** X3, on the sample render. *)
Lemma Checkout_outcome_witness :
  Store.getStepNumber (Store.state (world Sample.session)) = JS.Int 1
  ∧ match Checkout Sample.steps None Sample.session with
    | JS.Ok containers =>
        Sample.steps ≠ []
        ∧ (1 ≤ 1 ≤ Z.of_nat (numbered Sample.steps))%Z
        ∧ if isLoading (formStatus Sample.session) then containers = []
          else map (λ c, step (props_step c)) containers = Sample.steps
               ∧ ∀ c, c ∈ containers →
                      stepNumber (activeStep c) = Some (Z.to_nat 1)
    | JS.Throw e =>
        (Sample.steps = [] ∧ e = JS.Error "No steps found")
        ∨ (Sample.steps ≠ [] ∧ ¬ (1 ≤ 1 ≤ Z.of_nat (numbered Sample.steps))%Z
           ∧ e = JS.Error "The active step was lost")
    end.
Proof.
  split; [reflexivity|].
  apply (Checkout_outcome Sample.steps None Sample.session 1). reflexivity.
Defined.

Lemma sample_render :
  Checkout Sample.steps None Sample.session
  = JS.Ok (map (container Sample.annotated Sample.annotatedA None Sample.session)
               Sample.annotated).
Proof. reflexivity. Qed.

Lemma containerA_rendered :
  Sample.containerA
  ∈ map (container Sample.annotated Sample.annotatedA None Sample.session)
        Sample.annotated.
Proof. simpl. constructor. Qed.

(** X4, on the sample render: the click on the first step's button. *)
Lemma continue_click_never_throws_witness :
  shouldShowNextButton Sample.containerA = true
  ∧ ∀ t, ∃ r, onClick Sample.containerA t = JS.Ok r.
Proof.
  split; [reflexivity|].
  intros t.
  apply (continue_click_never_throws Sample.steps None Sample.session
           _ Sample.containerA sample_render containerA_rendered).
  reflexivity.
Defined.

(** X5, on the sample render. *)
Lemma continue_excludes_submit_witness :
  shouldShowNextButton Sample.containerA = true
  ∧ CheckoutSubmitButton Sample.steps Sample.session = JS.Ok (Some true).
Proof.
  split; [reflexivity|].
  apply (continue_excludes_submit Sample.steps None Sample.session
           _ Sample.containerA sample_render containerA_rendered).
  reflexivity.
Defined.

(** X6, on the sample checkout at its last numbered step. *)
Lemma submit_enabled_on_last_step_witness :
  match CheckoutSubmitButton Sample.steps
          (Sample.sessionAt Sample.window (JS.Int 2) ready) with
  | JS.Ok (Some disabled) =>
      ready ≠ loading
      ∧ (disabled = false ↔
         ready = ready ∧ 2%Z = Z.of_nat (numbered Sample.steps))
  | JS.Ok None => ready = loading
  | JS.Throw e =>
      Checkout Sample.steps None (Sample.sessionAt Sample.window (JS.Int 2) ready)
      = JS.Throw e
  end.
Proof.
  apply (submit_enabled_on_last_step Sample.steps None
           (Sample.sessionAt Sample.window (JS.Int 2) ready) 2).
  reflexivity.
Defined.

(** X7, on the sample render: the first step has no completion check. *)
Lemma continue_advances_by_one_witness :
  ∃ s' annotated next,
    onClick Sample.containerA Sample.session = JS.Ok (Decided s')
    ∧ stepCompleteStatus s' !! id (step (activeStep Sample.containerA)) = Some true
    ∧ formStatus s' = ready
    ∧ Store.getStepNumber (Store.state (world s')) = JS.Int (1 + 1)
    ∧ getAnnotatedSteps Sample.steps = JS.Ok annotated
    ∧ activeStepOf annotated (Store.getStepNumber (Store.state (world s')))
      = JS.Ok next.
Proof.
  apply (continue_advances_by_one Sample.steps None Sample.session
           _ Sample.containerA 1 sample_render containerA_rendered).
  - reflexivity.
  - reflexivity.
  - exact I.
Defined.

(** X8, on a checkout whose first step refuses. *)
Lemma continue_withheld_witness :
  ∃ s',
    onClick Sample.refusingContainer Sample.session = JS.Ok (Decided s')
    ∧ stepCompleteStatus s' !! id (step (activeStep Sample.refusingContainer))
      = Some false
    ∧ formStatus s' = ready
    ∧ world s' = world Sample.session.
Proof.
  apply (continue_withheld Sample.refusingSteps None Sample.session
           (map (container Sample.refusingAnnotated Sample.refusingActive None
                   Sample.session) Sample.refusingAnnotated)
           Sample.refusingContainer (λ _, Plain (VBool false))).
  - reflexivity.
  - simpl. constructor.
  - reflexivity.
  - reflexivity.
  - left. reflexivity.
Defined.

(** X9, on a checkout at its third step whose second step can be
    edited. *)
Lemma edit_returns_to_the_step_witness :
  onEdit Sample.editContainer = Some (JS.Int 2)
  ∧ formStatus Sample.editSession = ready
  ∧ hasStepNumber (step (props_step Sample.editContainer)) = true
  ∧ id (step (props_step Sample.editContainer))
    ≠ id (step (activeStep Sample.editContainer))
  ∧ Store.getStepNumber
      (Store.state (world (changeStep (JS.Int 2) Sample.editSession))) = JS.Int 2
  ∧ ∃ annotated,
      getAnnotatedSteps Sample.editSteps = JS.Ok annotated
      ∧ activeStepOf annotated
          (Store.getStepNumber
             (Store.state (world (changeStep (JS.Int 2) Sample.editSession))))
        = JS.Ok (props_step Sample.editContainer).
Proof.
  split; [reflexivity|].
  apply (edit_returns_to_the_step Sample.editSteps None Sample.editSession
           (map (container Sample.editAnnotated
                   {| step := Sample.stepC; stepNumber := Some 3; stepIndex := 2 |}
                   None Sample.editSession) Sample.editAnnotated)
           Sample.editContainer (JS.Int 2)).
  - reflexivity.
  - simpl. apply list_elem_of_further. constructor.
  - reflexivity.
Defined.

End FurtherSamples.

Section FurtherUrlSamples.
Import JS Browser Url Notions.

(** X10, on the sample page at [#step2]: saving 0 reads back as 1. *)
Lemma save_not_above_one_reads_one_witness :
  hash (saveStepNumberToUrl (Int 0) Sample.secondStepWindow) = ""
  ∧ getStepNumberFromUrl (saveStepNumberToUrl (Int 0) Sample.secondStepWindow)
    = Int 1.
Proof.
  apply (save_not_above_one_reads_one (Int 0) Sample.secondStepWindow);
    reflexivity.
Defined.


(** X13, on the sample page at [#step2abc#step5]. *)
Lemma getStepNumberFromUrl_ignores_what_follows_witness :
  hash Sample.garbageWindow = "#step" +:+ toString (Int 2) +:+ "abc#step5"
  ∧ getStepNumberFromUrl Sample.garbageWindow = Int 2.
Proof.
  split; [by vm_compute|].
  apply (getStepNumberFromUrl_ignores_what_follows 2 "abc#step5" Sample.garbageWindow).
  - unfold MAX_SAFE_INTEGER. lia.
  - reflexivity.
  - by vm_compute.
Defined.


(** X17, on a session whose window has been navigated to [#stepfoo]. *)
Lemma hashchange_can_lose_the_active_step_witness :
  getStepNumberFromUrl Sample.malformedWindow = NaN
  ∧ Checkout.Checkout Sample.steps None
      (Checkout.onHashChange true
         (Sample.sessionAt Sample.malformedWindow (Int 1) Checkout.ready))
    = JS.Throw (JS.Error "The active step was lost").
Proof.
  split; [by vm_compute|].
  apply (hashchange_can_lose_the_active_step Sample.steps None
           (Sample.sessionAt Sample.malformedWindow (Int 1) Checkout.ready)).
  - discriminate.
  - by vm_compute.
Defined.

(** X18, on the sample world: changing to step 2 twice. *)
Lemma changeStep_twice_writes_once_witness :
  let w1 := Store.dispatch (Store.changeStep (Int 2)) Sample.world in
  let w2 := Store.dispatch (Store.changeStep (Int 2)) w1 in
  Store.window w2 = Store.window w1
  ∧ Store.state w2 = Store.state w1
  ∧ Store.trace w2 =
      Store.trace w1 ++
        [ Store.Notified
            {| Store.type := "STEP_NUMBER_CHANGE_EVENT"; Store.payload := Int 2 |};
          Store.UrlSaved (Int 2);
          Store.Committed
            {| Store.type := "STEP_NUMBER_SET"; Store.payload := Int 2 |} ].
Proof.
  apply (changeStep_twice_writes_once (Int 2) Sample.world). intros _. reflexivity.
Defined.

End FurtherUrlSamples.

(** ** Store and URL together; promises that do not settle with [true] *)

Section StoreAndUrl.
Import JS Browser Notions.

(** X22. After a change to a step [n] from 1 to
    [Number.MAX_SAFE_INTEGER], in a browser with [pushState] (and, for
    [n > 1], from an address that does not end with a bare [#]), the store
    and the URL agree: the step read from the URL is the step in the
    store. *)
Theorem changeStep_keeps_url_in_step (n : Z) (w : Store.World) :
  (1 ≤ n ≤ MAX_SAFE_INTEGER)%Z →
  pushStateAvailable (Store.window w) = true →
  ((1 < n)%Z → endsWithBareHash (Store.window w) = false) →
  let w' := Store.dispatch (Store.changeStep (Int n)) w in
  Url.getStepNumberFromUrl (Store.window w') = Store.getStepNumber (Store.state w')
  ∧ Store.getStepNumber (Store.state w') = Int n.
Proof.
  intros [Hn _] Hpush Hbare. simpl. split; [|done].
  apply getStepNumberFromUrl_fragmentFor; [done|].
  apply hash_after_save; [done|].
  intros Hgt. apply Hbare. by apply Z.ltb_lt.
Qed.

(** X23. A promise that is fulfilled with anything but [true]
    ([false], [null] or [undefined], any other value) withholds the
    continuation: the step is recorded as not complete, the form is ready
    again, and the store, the window and the trace are as they were at
    settlement.  (Handed back directly, [null] and [undefined] count as
    complete; through a promise they do not.) *)
Theorem promise_not_true_withholds
    (c : Checkout.Container) (v : Checkout.value) (t : Checkout.Session) :
  v ≠ Checkout.VBool true →
  ∃ t',
    Checkout.fulfilled c v t = JS.Ok t'
    ∧ Checkout.stepCompleteStatus t'
        !! Checkout.id (Checkout.step (Checkout.props_step c)) = Some false
    ∧ Checkout.formStatus t' = Checkout.ready
    ∧ Checkout.world t' = Checkout.world t.
Proof.
  intros Hv. eexists. split.
  { unfold Checkout.fulfilled, Checkout.evaluateContinue.
    destruct v as [[|]| |]; [done|reflexivity..]. }
  simpl. split; [apply lookup_insert_eq|done].
Qed.

(** X22, on the sample world, for step 2. *)
Lemma changeStep_keeps_url_in_step_witness :
  let w' := Store.dispatch (Store.changeStep (Int 2)) Sample.world in
  Url.getStepNumberFromUrl (Store.window w') = Store.getStepNumber (Store.state w')
  ∧ Store.getStepNumber (Store.state w') = Int 2.
Proof.
  apply (changeStep_keeps_url_in_step 2 Sample.world).
  - unfold MAX_SAFE_INTEGER. lia.
  - reflexivity.
  - intros _. reflexivity.
Defined.

(** X23, on the sample: a promise fulfilled with [undefined]. *)
Lemma promise_not_true_withholds_witness :
  ∃ t',
    Checkout.fulfilled Sample.gateContainer Checkout.VNullish
      (Checkout.setFormValidating Sample.session) = JS.Ok t'
    ∧ Checkout.stepCompleteStatus t'
        !! Checkout.id (Checkout.step (Checkout.props_step Sample.gateContainer))
      = Some false
    ∧ Checkout.formStatus t' = Checkout.ready
    ∧ Checkout.world t' = Checkout.world (Checkout.setFormValidating Sample.session).
Proof.
  apply (promise_not_true_withholds Sample.gateContainer Checkout.VNullish
           (Checkout.setFormValidating Sample.session)).
  discriminate.
Defined.

End StoreAndUrl.

(** ** What a save writes, and when *)

Section Writes.
Import JS Browser Url Notions.

(** The address that is pushed, on an address that does not end with a
    bare [#]: the old address up to its first [#], then the new
    fragment. *)
Lemma pushed_address_base (n : numeric) (w : Window) :
  endsWithBareHash w = false →
  (if nonempty (hash w) then replace (href w) (hash w) (fragmentFor n)
   else href w +:+ fragmentFor n) = addressBase w +:+ fragmentFor n
  ∧ freeOf "#" (addressBase w) = true.
Proof.
  intros Hbare.
  destruct (href_cases w) as [(Hfree & Hhash & _)|[[Hhash Hb]|
    (b & fragment & Hfree & Hhref & Hhash & _)]].
  - rewrite Hhash. simpl. unfold addressBase.
    by rewrite (cut_free "#" "" _ Hfree).
  - congruence.
  - assert (addressBase w = b) as ->.
    { unfold addressBase. rewrite Hhref.
      change (b +:+ String "#" fragment) with (b +:+ "#" +:+ fragment).
      by rewrite (cut_app_free "#" "" b fragment Hfree). }
    split; [|done]. rewrite Hhash. simpl. unfold replace. rewrite Hhref.
    replace (b +:+ String "#" fragment)
      with (b +:+ String "#" fragment +:+ "") by (by rewrite app_empty_r).
    rewrite (cut_app_free "#" fragment b "" Hfree).
    by rewrite app_empty_r.
Qed.

(** What one save does to the window, in full. *)
Lemma save_writes (n : numeric) (w : Window) :
  loads (saveStepNumberToUrl n w) = loads w
  ∧ if pushStateAvailable w && negb (bool_decide (hash w = fragmentFor n))
    then back (saveStepNumberToUrl n w) = href w :: back w
         ∧ forward (saveStepNumberToUrl n w) = []
         ∧ addressBase (saveStepNumberToUrl n w) = addressBase w
         ∧ if endsWithBareHash w then True
           else href (saveStepNumberToUrl n w) = addressBase w +:+ fragmentFor n
                ∧ hash (saveStepNumberToUrl n w) = fragmentFor n
    else saveStepNumberToUrl n w = w.
Proof.
  pose proof (addressBase_save n w) as Hbase.
  rewrite saveStepNumberToUrl_unfold in *.
  destruct (pushStateAvailable w && negb (bool_decide (hash w = fragmentFor n)))
    eqn:Hwrite; [|done].
  split; [done|]. split; [done|]. split; [done|]. split; [done|].
  destruct (endsWithBareHash w) eqn:Hbare; [done|].
  destruct (pushed_address_base n w Hbare) as [Hurl Hfree].
  simpl. split; [done|]. rewrite Hurl.
  destruct (fragmentFor_cases n) as [[_ ->]|(z & _ & _ & _ & ->)].
  - apply hash_free. simpl. by rewrite app_empty_r.
  - by apply (hash_fragment _ (addressBase w) "s" ("tep" +:+ toString (Int z))).
Qed.

(** C8, as the code has it.  For a number on which the embedding is
    exact ([NaN], [null] or an integer up to [Number.MAX_SAFE_INTEGER] in
    absolute value), [saveStepNumberToUrl( n )] never loads a document.
    When [pushState] is there and the fragment is not yet the one that
    stands for [n], it updates the address with one [pushState]: the
    address it leaves becomes the latest of the entries to go back to, the
    entries to go forward to are dropped, the address keeps what is before
    its first [#] and (an address that ends with a bare [#] left aside)
    becomes that part followed by the fragment that stands for [n], which
    is then the fragment of the window.  Otherwise the window is left as
    it is. *)
Theorem saveStepNumberToUrl_pushes_one_entry (n : numeric) (w : Window) :
  safe n = true →
  loads (saveStepNumberToUrl n w) = loads w
  ∧ if pushStateAvailable w && negb (bool_decide (hash w = fragmentFor n))
    then back (saveStepNumberToUrl n w) = href w :: back w
         ∧ forward (saveStepNumberToUrl n w) = []
         ∧ addressBase (saveStepNumberToUrl n w) = addressBase w
         ∧ if endsWithBareHash w then True
           else href (saveStepNumberToUrl n w) = addressBase w +:+ fragmentFor n
                ∧ hash (saveStepNumberToUrl n w) = fragmentFor n
    else saveStepNumberToUrl n w = w.
Proof. intros _. apply save_writes. Qed.

(** C8, on the sample window, for step 2. *)
Lemma saveStepNumberToUrl_pushes_one_entry_witness :
  safe (Int 2) = true
  ∧ loads (saveStepNumberToUrl (Int 2) Sample.window) = loads Sample.window
  ∧ back (saveStepNumberToUrl (Int 2) Sample.window)
    = href Sample.window :: back Sample.window
  ∧ forward (saveStepNumberToUrl (Int 2) Sample.window) = []
  ∧ addressBase (saveStepNumberToUrl (Int 2) Sample.window)
    = addressBase Sample.window
  ∧ href (saveStepNumberToUrl (Int 2) Sample.window)
    = addressBase Sample.window +:+ fragmentFor (Int 2)
  ∧ hash (saveStepNumberToUrl (Int 2) Sample.window) = fragmentFor (Int 2).
Proof.
  split; [reflexivity|].
  pose proof (saveStepNumberToUrl_pushes_one_entry (Int 2) Sample.window eq_refl)
    as (Hloads & Hwrite).
  change (pushStateAvailable Sample.window
          && negb (bool_decide (hash Sample.window = fragmentFor (Int 2))))
    with true in Hwrite.
  change (endsWithBareHash Sample.window) with false in Hwrite.
  destruct Hwrite as (Hback & Hforward & Hbase & Hhref & Hhash).
  repeat split; assumption.
Defined.




Example changeStep_first_step_writes_nothing :
  Store.window (Store.dispatch (Store.changeStep (Int 1)) Sample.world)
  = Store.window Sample.world
  ∧ Store.trace (Store.dispatch (Store.changeStep (Int 1)) Sample.world)
    = [ Store.Notified
          {| Store.type := "STEP_NUMBER_CHANGE_EVENT"; Store.payload := Int 1 |};
        Store.UrlSaved (Int 1);
        Store.Committed
          {| Store.type := "STEP_NUMBER_SET"; Store.payload := Int 1 |} ].
Proof. split; reflexivity. Qed.

End Writes.
